(** * SocialReputationFHE: a shallow embedding of the reputation contract

    The contract [contracts/SocialReputationFHE.sol] keeps a registry of
    verifiable credentials, a derived reputation profile per subject, and a
    ledger of reputation proofs that are revealed through an asynchronous
    decryption callback.  Every state-changing function of the contract, and
    the read accessors and metrics the properties below speak of, are
    embedded as computations in a state-and-revert monad over the contract
    storage; a transaction that reverts leaves the storage as it was.
    Events are write-only logs that no function reads back; they are not
    part of the storage and are left out. *)

From Stdlib Require Import ZArith NArith Lia List Sorted.
From stdpp Require Import base option numbers list gmap.

Local Open Scope N_scope.

(** ** The encrypted-arithmetic engine *)

(** Modelled from the spec: the library [@fhevm/solidity/lib/FHE.sol] is
    imported by the contract and is not part of the repository.  Section 6 of
    the specification gives its contract: add, sub, mul, div on ciphertexts
    (div truncates toward zero), comparisons yielding an encrypted boolean,
    and a select.  A ciphertext of type [euint32] is represented by the
    32-bit value it encrypts; arithmetic wraps around modulo 2^32. *)
Module FHE.

Definition modulus32 : Z := (2 ^ 32)%Z.

Record euint32 : Type := Enc { reveal : Z }.
Record ebool : Type := EncB { revealb : bool }.

Definition wf32 (a : euint32) : Prop := (0 <= reveal a < modulus32)%Z.

Definition asEuint32 (v : Z) : euint32 := Enc (v mod modulus32).
Definition asEbool (b : bool) : ebool := EncB b.

Definition add (a b : euint32) : euint32 :=
  Enc ((reveal a + reveal b) mod modulus32).
Definition sub (a b : euint32) : euint32 :=
  Enc ((reveal a - reveal b) mod modulus32).
Definition mul (a b : euint32) : euint32 :=
  Enc ((reveal a * reveal b) mod modulus32).
(** The contract only divides by [max _ 1], by constants and by a list
    length; division by an encrypted zero is left to the caller to avoid
    and is given [Z.div]'s value here. *)
Definition div (a b : euint32) : euint32 :=
  Enc ((reveal a / reveal b) mod modulus32).
Definition max (a b : euint32) : euint32 :=
  Enc (Z.max (reveal a) (reveal b) mod modulus32).

Definition gte (a b : euint32) : ebool := EncB (reveal b <=? reveal a)%Z.
Definition gt (a b : euint32) : ebool := EncB (reveal b <? reveal a)%Z.
Definition neq (a b : euint32) : ebool :=
  EncB (negb (reveal a =? reveal b)%Z).
Definition and (a b : ebool) : ebool := EncB (revealb a && revealb b).

Definition cmux (c : ebool) (a b : euint32) : euint32 :=
  if revealb c then a else b.

End FHE.

Import FHE.

(** ** Storage layout *)

Definition address : Type := N.

Definition MAX_UINT256 : N := 2 ^ 256 - 1.

Record EncryptedVC : Type := mkEncryptedVC {
  vc_id : N;
  issuer : address;
  subject : address;
  encryptedType : euint32;
  encryptedScore : euint32;
  encryptedWeight : euint32;
  timestamp : N;
  isActive : bool
}.

Record ReputationProfile : Type := mkReputationProfile {
  encryptedTotalScore : euint32;
  encryptedTrustLevel : euint32;
  encryptedCredentialCount : euint32;
  isInitialized : bool
}.

Record ReputationProof : Type := mkReputationProof {
  encryptedMinScore : euint32;
  encryptedProof : euint32;
  isValid : bool
}.

Record DecryptedProof : Type := mkDecryptedProof {
  minScore : Z;
  proofValue : Z;
  isRevealed : bool
}.

#[global] Instance euint32_eq_dec : EqDecision euint32.
Proof. solve_decision. Defined.

#[global] Instance EncryptedVC_eq_dec : EqDecision EncryptedVC.
Proof. solve_decision. Defined.

(** A Solidity mapping is total: a slot that was never written reads as the
    zero value of its type. *)
Definition zeroVC : EncryptedVC :=
  mkEncryptedVC 0 0 0 (Enc 0) (Enc 0) (Enc 0) 0 false.

Definition zeroProfile : ReputationProfile :=
  mkReputationProfile (Enc 0) (Enc 0) (Enc 0) false.

Definition zeroProof : ReputationProof :=
  mkReputationProof (Enc 0) (Enc 0) false.

Definition zeroDecrypted : DecryptedProof := mkDecryptedProof 0 0 false.

Record State : Type := mkState {
  vcCount : N;
  verifiableCredentials : gmap N EncryptedVC;
  reputationProfiles : gmap N ReputationProfile;
  reputationProofs : gmap N ReputationProof;
  decryptedProofs : gmap N DecryptedProof;
  userCredentials : gmap N (list N);
  trustedIssuers : gmap N bool;
  requestToProofId : gmap N N;
  systemAdmin : address
}.

Definition set_vcCount (n : N) (s : State) : State :=
  mkState n (verifiableCredentials s) (reputationProfiles s)
    (reputationProofs s) (decryptedProofs s) (userCredentials s)
    (trustedIssuers s) (requestToProofId s) (systemAdmin s).

Definition set_verifiableCredentials (m : gmap N EncryptedVC) (s : State)
  : State :=
  mkState (vcCount s) m (reputationProfiles s) (reputationProofs s)
    (decryptedProofs s) (userCredentials s) (trustedIssuers s)
    (requestToProofId s) (systemAdmin s).

Definition set_reputationProfiles (m : gmap N ReputationProfile) (s : State)
  : State :=
  mkState (vcCount s) (verifiableCredentials s) m (reputationProofs s)
    (decryptedProofs s) (userCredentials s) (trustedIssuers s)
    (requestToProofId s) (systemAdmin s).

Definition set_reputationProofs (m : gmap N ReputationProof) (s : State)
  : State :=
  mkState (vcCount s) (verifiableCredentials s) (reputationProfiles s) m
    (decryptedProofs s) (userCredentials s) (trustedIssuers s)
    (requestToProofId s) (systemAdmin s).

Definition set_decryptedProofs (m : gmap N DecryptedProof) (s : State)
  : State :=
  mkState (vcCount s) (verifiableCredentials s) (reputationProfiles s)
    (reputationProofs s) m (userCredentials s) (trustedIssuers s)
    (requestToProofId s) (systemAdmin s).

Definition set_userCredentials (m : gmap N (list N)) (s : State) : State :=
  mkState (vcCount s) (verifiableCredentials s) (reputationProfiles s)
    (reputationProofs s) (decryptedProofs s) m (trustedIssuers s)
    (requestToProofId s) (systemAdmin s).

Definition set_trustedIssuers (m : gmap N bool) (s : State) : State :=
  mkState (vcCount s) (verifiableCredentials s) (reputationProfiles s)
    (reputationProofs s) (decryptedProofs s) (userCredentials s) m
    (requestToProofId s) (systemAdmin s).

Definition set_requestToProofId (m : gmap N N) (s : State) : State :=
  mkState (vcCount s) (verifiableCredentials s) (reputationProfiles s)
    (reputationProofs s) (decryptedProofs s) (userCredentials s)
    (trustedIssuers s) m (systemAdmin s).

(** ** Transactions: state and revert *)

(** One constructor per [require] message of the contract, plus the three
    ways a call can revert outside a [require]: checked arithmetic on
    [vcCount], [abi.decode], and [FHE.checkSignatures]. *)
Inductive Error : Type :=
| NotAdmin               (* "Not admin" *)
| NotTrustedIssuer       (* "Not trusted issuer" *)
| ProfileNotInitialized  (* "Profile not initialized" *)
| InvalidProof           (* "Invalid proof" *)
| AlreadyDecrypted       (* "Already decrypted" *)
| InvalidRequest         (* "Invalid request" *)
| NotIssuer              (* "Not issuer" *)
| ArithmeticPanic
| AbiDecodeFailure
| InvalidSignatures.

(** The error taxonomy of the specification (section 7). *)
Inductive SpecError : Type :=
| Unauthorized
| NotFound
| ProfileUninitialized
| SpecInvalidProof
| AlreadyRevealed
| UnknownRequest.

Definition spec_error (e : Error) : option SpecError :=
  match e with
  | NotAdmin | NotTrustedIssuer | NotIssuer => Some Unauthorized
  | ProfileNotInitialized => Some ProfileUninitialized
  | InvalidProof => Some SpecInvalidProof
  | AlreadyDecrypted => Some AlreadyRevealed
  | InvalidRequest => Some UnknownRequest
  | ArithmeticPanic | AbiDecodeFailure | InvalidSignatures => None
  end.

Inductive result (A : Type) : Type :=
| Ok (a : A)
| Revert (e : Error).

Arguments Ok {A} a.
Arguments Revert {A} e.

(** What a call sees of its transaction: the caller, the block time, and
    the answers of the two external calls it may make (the request id that
    [FHE.requestDecryption] hands back, and whether [FHE.checkSignatures]
    accepts the attestation). *)
Record Env : Type := mkEnv {
  msg_sender : address;
  block_timestamp : N;
  oracle_requestId : N;
  signatures_valid : bool
}.

Definition M (A : Type) : Type := State → result (A * State).

#[global] Instance M_ret : MRet M := λ A a s, Ok (a, s).

#[global] Instance M_bind : MBind M := λ A B f m s,
  match m s with
  | Ok (a, s') => f a s'
  | Revert e => Revert e
  end.

Definition gets {A : Type} (f : State → A) : M A := λ s, Ok (f s, s).
Definition modify (f : State → State) : M unit := λ s, Ok (tt, f s).
Definition revert {A : Type} (e : Error) : M A := λ _, Revert e.
Definition require (b : bool) (e : Error) : M unit :=
  if b then mret tt else revert e.

(** The storage after a transaction, and what the caller gets back. *)
Definition run {A : Type} (m : M A) (s : State) : State * result A :=
  match m s with
  | Ok (a, s') => (s', Ok a)
  | Revert e => (s, Revert e)
  end.

(** [vcCount += 1] under Solidity 0.8 checked arithmetic. *)
Definition increment_vcCount : M N :=
  c ← gets vcCount;
  require (c <? MAX_UINT256) ArithmeticPanic;;
  modify (set_vcCount (c + 1));;
  mret (c + 1).

(** ** Storage reads *)

Definition vcAt (s : State) (vcId : N) : EncryptedVC :=
  default zeroVC (verifiableCredentials s !! vcId).

Definition profileAt (s : State) (subj : address) : ReputationProfile :=
  default zeroProfile (reputationProfiles s !! subj).

Definition proofAt (s : State) (proofId : N) : ReputationProof :=
  default zeroProof (reputationProofs s !! proofId).

Definition decryptedAt (s : State) (proofId : N) : DecryptedProof :=
  default zeroDecrypted (decryptedProofs s !! proofId).

Definition credentialsOf (s : State) (subj : address) : list N :=
  default [] (userCredentials s !! subj).

Definition isTrustedIssuer (s : State) (a : address) : bool :=
  default false (trustedIssuers s !! a).

Definition proofIdOf (s : State) (requestId : N) : N :=
  default 0 (requestToProofId s !! requestId).

(** ** Storage writes through a reference *)

Definition write_vc (vcId : N) (f : EncryptedVC → EncryptedVC) (s : State)
  : State :=
  set_verifiableCredentials (<[vcId := f (vcAt s vcId)]> (verifiableCredentials s)) s.

Definition write_profile (subj : address)
    (f : ReputationProfile → ReputationProfile) (s : State) : State :=
  set_reputationProfiles (<[subj := f (profileAt s subj)]> (reputationProfiles s)) s.

Definition write_proof (proofId : N) (f : ReputationProof → ReputationProof)
    (s : State) : State :=
  set_reputationProofs (<[proofId := f (proofAt s proofId)]> (reputationProofs s)) s.

Definition write_decrypted (proofId : N) (f : DecryptedProof → DecryptedProof)
    (s : State) : State :=
  set_decryptedProofs (<[proofId := f (decryptedAt s proofId)]> (decryptedProofs s)) s.

Definition with_isActive (b : bool) (vc : EncryptedVC) : EncryptedVC :=
  mkEncryptedVC (vc_id vc) (issuer vc) (subject vc) (encryptedType vc)
    (encryptedScore vc) (encryptedWeight vc) (timestamp vc) b.

Definition with_encryptedTotalScore (v : euint32) (p : ReputationProfile)
  : ReputationProfile :=
  mkReputationProfile v (encryptedTrustLevel p) (encryptedCredentialCount p)
    (isInitialized p).

Definition with_encryptedTrustLevel (v : euint32) (p : ReputationProfile)
  : ReputationProfile :=
  mkReputationProfile (encryptedTotalScore p) v (encryptedCredentialCount p)
    (isInitialized p).

Definition with_encryptedCredentialCount (v : euint32) (p : ReputationProfile)
  : ReputationProfile :=
  mkReputationProfile (encryptedTotalScore p) (encryptedTrustLevel p) v
    (isInitialized p).

Definition with_isValid (b : bool) (p : ReputationProof) : ReputationProof :=
  mkReputationProof (encryptedMinScore p) (encryptedProof p) b.

Definition with_minScore (v : Z) (d : DecryptedProof) : DecryptedProof :=
  mkDecryptedProof v (proofValue d) (isRevealed d).

Definition with_proofValue (v : Z) (d : DecryptedProof) : DecryptedProof :=
  mkDecryptedProof (minScore d) v (isRevealed d).

Definition with_isRevealed (b : bool) (d : DecryptedProof) : DecryptedProof :=
  mkDecryptedProof (minScore d) (proofValue d) b.

(** ** The contract *)

(** The functions below follow [SocialReputationFHE.sol] statement by
    statement; the line numbers are those of the source file. *)

(** [constructor], lines 66-68. *)
Definition constructor (env : Env) : State :=
  mkState 0 ∅ ∅ ∅ ∅ ∅ ∅ ∅ (msg_sender env).

(** The modifiers [onlyAdmin] and [onlyIssuer], lines 56-64. *)
Definition onlyAdmin (env : Env) : M unit :=
  admin ← gets systemAdmin;
  require (msg_sender env =? admin) NotAdmin.

Definition onlyIssuer (env : Env) : M unit :=
  trusted ← gets (λ s, isTrustedIssuer s (msg_sender env));
  require trusted NotTrustedIssuer.

(** [authorizeIssuer], lines 71-73. *)
Definition authorizeIssuer (env : Env) (issuer : address) : M unit :=
  onlyAdmin env;;
  modify (λ s, set_trustedIssuers (<[issuer := true]> (trustedIssuers s)) s).

(** [issueEncryptedVC], lines 76-109. *)
Definition issueEncryptedVC (env : Env) (subject : address)
    (encryptedType encryptedScore encryptedWeight : euint32) : M unit :=
  onlyIssuer env;;
  newId ← increment_vcCount;
  modify (λ s, set_verifiableCredentials
                 (<[newId := {| vc_id := newId;
                                issuer := msg_sender env;
                                subject := subject;
                                encryptedType := encryptedType;
                                encryptedScore := encryptedScore;
                                encryptedWeight := encryptedWeight;
                                timestamp := block_timestamp env;
                                isActive := true |}]>
                    (verifiableCredentials s)) s);;
  modify (λ s, set_userCredentials
                 (<[subject := credentialsOf s subject ++ [newId]]>
                    (userCredentials s)) s);;
  profile ← gets (λ s, profileAt s subject);
  if negb (isInitialized profile)
  then modify (λ s, set_reputationProfiles
                      (<[subject := {| encryptedTotalScore := asEuint32 0;
                                       encryptedTrustLevel := asEuint32 0;
                                       encryptedCredentialCount := asEuint32 0;
                                       isInitialized := true |}]>
                         (reputationProfiles s)) s)
  else mret tt.

(** [calculateTrustLevel], lines 209-215. *)
Definition calculateTrustLevel (profile : ReputationProfile) : euint32 :=
  let scoreFactor := FHE.div (encryptedTotalScore profile) (asEuint32 10) in
  let countFactor := FHE.div (encryptedCredentialCount profile) (asEuint32 5) in
  FHE.add scoreFactor countFactor.

(** The body of the loop of [updateReputationProfile]: the three running
    values, one credential id further. *)
Definition accumulate (s : State) (acc : euint32 * euint32 * euint32)
    (credId : N) : euint32 * euint32 * euint32 :=
  let '(totalScore, totalWeight, credentialCount) := acc in
  let vc := vcAt s credId in
  if isActive vc
  then (FHE.add totalScore (FHE.mul (encryptedScore vc) (encryptedWeight vc)),
        FHE.add totalWeight (encryptedWeight vc),
        FHE.add credentialCount (asEuint32 1))
  else acc.

(** [updateReputationProfile], lines 112-137.  [profile] is a storage
    reference: each assignment writes the slot, and [calculateTrustLevel]
    reads the slot after the first two writes. *)
Definition updateReputationProfile (subject : address) : M unit :=
  profile ← gets (λ s, profileAt s subject);
  require (isInitialized profile) ProfileNotInitialized;;
  credentials ← gets (λ s, credentialsOf s subject);
  sums ← gets (λ s, fold_left (accumulate s) credentials
                      (asEuint32 0, asEuint32 0, asEuint32 0));
  let '(totalScore, totalWeight, credentialCount) := sums in
  modify (write_profile subject
            (with_encryptedTotalScore
               (FHE.div totalScore (FHE.max totalWeight (asEuint32 1)))));;
  modify (write_profile subject
            (with_encryptedCredentialCount credentialCount));;
  trust ← gets (λ s, calculateTrustLevel (profileAt s subject));
  modify (write_profile subject (with_encryptedTrustLevel trust)).

(** [generateReputationProof], lines 140-167. *)
Definition generateReputationProof (subject : address)
    (encryptedMinScore : euint32) : M N :=
  profile ← gets (λ s, profileAt s subject);
  require (isInitialized profile) ProfileNotInitialized;;
  newProofId ← increment_vcCount;
  let meetsRequirement := FHE.gte (encryptedTotalScore profile) encryptedMinScore in
  let proofValue :=
    FHE.cmux meetsRequirement (encryptedTotalScore profile) (asEuint32 0) in
  modify (λ s, set_reputationProofs
                 (<[newProofId := {| encryptedMinScore := encryptedMinScore;
                                     encryptedProof := proofValue;
                                     isValid := true |}]>
                    (reputationProofs s)) s);;
  modify (λ s, set_decryptedProofs
                 (<[newProofId := {| minScore := 0;
                                     proofValue := 0;
                                     isRevealed := false |}]>
                    (decryptedProofs s)) s);;
  mret newProofId.

(** [FHE.requestDecryption]: the oracle takes the ciphertexts and answers
    with a request id of its own choosing. *)
Definition requestDecryption (env : Env) (ciphertexts : list euint32) : M N :=
  mret (oracle_requestId env).

(** [requestProofDecryption], lines 170-181. *)
Definition requestProofDecryption (env : Env) (proofId : N) : M unit :=
  proof ← gets (λ s, proofAt s proofId);
  require (isValid proof) InvalidProof;;
  revealed ← gets (λ s, isRevealed (decryptedAt s proofId));
  require (negb revealed) AlreadyDecrypted;;
  let ciphertexts := [encryptedMinScore proof; encryptedProof proof] in
  reqId ← requestDecryption env ciphertexts;
  modify (λ s, set_requestToProofId (<[reqId := proofId]> (requestToProofId s)) s).

(** [abi.decode(cleartexts, (uint32, uint32))]: two words, each in range. *)
Definition in_uint32 (v : Z) : bool := ((0 <=? v) && (v <? modulus32))%Z.

Definition abi_decode_uint32_pair (cleartexts : list Z) : M (Z * Z) :=
  match cleartexts with
  | a :: b :: _ =>
      require (in_uint32 a && in_uint32 b) AbiDecodeFailure;; mret (a, b)
  | _ => revert AbiDecodeFailure
  end.

(** [FHE.checkSignatures]: reverts unless the attestation authenticates
    the cleartexts for the request id; the verdict is the oracle's. *)
Definition checkSignatures (env : Env) (requestId : N)
    (cleartexts proof : list Z) : M unit :=
  require (signatures_valid env) InvalidSignatures.

(** [decryptReputationProof], lines 184-206. *)
Definition decryptReputationProof (env : Env) (requestId : N)
    (cleartexts proof : list Z) : M unit :=
  proofId ← gets (λ s, proofIdOf s requestId);
  require (negb (proofId =? 0)) InvalidRequest;;
  rProof ← gets (λ s, proofAt s proofId);
  dProof ← gets (λ s, decryptedAt s proofId);
  require (isValid rProof) InvalidProof;;
  require (negb (isRevealed dProof)) AlreadyDecrypted;;
  checkSignatures env requestId cleartexts proof;;
  '(minScore, proofValue) ← abi_decode_uint32_pair cleartexts;
  modify (write_decrypted proofId (with_minScore minScore));;
  modify (write_decrypted proofId (with_proofValue proofValue));;
  modify (write_decrypted proofId (with_isRevealed true)).

(** [revokeCredential], lines 289-293. *)
Definition revokeCredential (env : Env) (vcId : N) : M unit :=
  vc ← gets (λ s, vcAt s vcId);
  require (issuer vc =? msg_sender env) NotIssuer;;
  modify (write_vc vcId (with_isActive false)).

(** The read accessors, lines 309-364. *)
Definition getEncryptedVC (vcId : N)
  : M (address * address * euint32 * euint32 * euint32 * N * bool) :=
  vc ← gets (λ s, vcAt s vcId);
  mret (issuer vc, subject vc, encryptedType vc, encryptedScore vc,
        encryptedWeight vc, timestamp vc, isActive vc).

Definition getReputationProfile (subject : address)
  : M (euint32 * euint32 * euint32 * bool) :=
  p ← gets (λ s, profileAt s subject);
  mret (encryptedTotalScore p, encryptedTrustLevel p,
        encryptedCredentialCount p, isInitialized p).

Definition getReputationProof (proofId : N) : M (euint32 * euint32 * bool) :=
  p ← gets (λ s, proofAt s proofId);
  mret (encryptedMinScore p, encryptedProof p, isValid p).

Definition getDecryptedProof (proofId : N) : M (Z * Z * bool) :=
  p ← gets (λ s, decryptedAt s proofId);
  mret (minScore p, proofValue p, isRevealed p).

(** The issuing wrappers, lines 218-221, 379-382, 447-450, 512-515 and
    564-567.  Each calls [issueEncryptedVC], whose own modifier checks the
    caller again; [issueCommunityEndorsement] has no modifier of its own. *)
Definition issueAnonymousAttestation (env : Env) (subject : address)
    (encryptedScore : euint32) : M unit :=
  onlyIssuer env;;
  issueEncryptedVC env subject (asEuint32 0) encryptedScore (asEuint32 1).

Definition issueCrossPlatformCredential (env : Env) (subject : address)
    (encryptedPlatformScore : euint32) : M unit :=
  onlyIssuer env;;
  issueEncryptedVC env subject (asEuint32 999) encryptedPlatformScore
    (asEuint32 2).

Definition issueCommunityEndorsement (env : Env) (subject : address)
    (encryptedEndorsement : euint32) : M unit :=
  issueEncryptedVC env subject (asEuint32 100) encryptedEndorsement
    (asEuint32 3).

Definition issueSkillCertification (env : Env) (subject : address)
    (encryptedSkillLevel : euint32) : M unit :=
  onlyIssuer env;;
  issueEncryptedVC env subject (asEuint32 200) encryptedSkillLevel
    (asEuint32 2).

Definition issueDIDScore (env : Env) (subject : address)
    (encryptedDIDScore : euint32) : M unit :=
  onlyIssuer env;;
  issueEncryptedVC env subject (asEuint32 400) encryptedDIDScore
    (asEuint32 3).

(** The body of the loop of [calculateConsistency]. *)
Definition add_deviation (s : State) (avgScore totalDeviation : euint32)
    (credId : N) : euint32 :=
  let vc := vcAt s credId in
  let deviation := FHE.sub (encryptedScore vc) avgScore in
  FHE.add totalDeviation (FHE.mul deviation deviation).

(** [calculateConsistency], lines 385-403. *)
Definition calculateConsistency (subject : address) : M euint32 :=
  credentials ← gets (λ s, credentialsOf s subject);
  if (length credentials <? 2)%nat
  then mret (asEuint32 100)
  else
    avgScore ← gets (λ s, encryptedTotalScore (profileAt s subject));
    totalDeviation ← gets (λ s, fold_left (add_deviation s avgScore)
                                  credentials (asEuint32 0));
    let variance :=
      FHE.div totalDeviation (asEuint32 (Z.of_nat (length credentials))) in
    mret (FHE.sub (asEuint32 100) (FHE.div variance (asEuint32 10))).

(** [generateTimeBoundProof], lines 406-416. *)
Definition generateTimeBoundProof (subject : address)
    (encryptedMinScore : euint32) (validityPeriod : N) : M N :=
  proofId ← generateReputationProof subject encryptedMinScore;
  modify (write_proof proofId (with_isValid false));;
  mret proofId.

(** The body of the loop of [generateCompositeProof]. *)
Definition meet_requirement (totalScore : euint32) (acc : ebool * euint32)
    (requirement : euint32) : ebool * euint32 :=
  let '(meetsAll, compositeProof) := acc in
  let meetsRequirement := FHE.gte totalScore requirement in
  (FHE.and meetsAll meetsRequirement,
   FHE.add compositeProof (FHE.cmux meetsRequirement requirement (asEuint32 0))).

(** [generateCompositeProof], lines 462-492. *)
Definition generateCompositeProof (subject : address)
    (encryptedRequirements : list euint32) : M N :=
  profile ← gets (λ s, profileAt s subject);
  require (isInitialized profile) ProfileNotInitialized;;
  let '(meetsAll, compositeProof) :=
    fold_left (meet_requirement (encryptedTotalScore profile))
      encryptedRequirements (asEbool true, asEuint32 0) in
  newProofId ← increment_vcCount;
  modify (λ s, set_reputationProofs
                 (<[newProofId :=
                      {| encryptedMinScore :=
                           FHE.cmux meetsAll (asEuint32 1) (asEuint32 0);
                         encryptedProof := compositeProof;
                         isValid := true |}]>
                    (reputationProofs s)) s);;
  modify (λ s, set_decryptedProofs
                 (<[newProofId := {| minScore := 0;
                                     proofValue := 0;
                                     isRevealed := false |}]>
                    (decryptedProofs s)) s);;
  mret newProofId.

(** [protectUserPrivacy], lines 495-498: the body is empty. *)
Definition protectUserPrivacy (env : Env) (subject : address) : M unit :=
  onlyAdmin env.

(** ** Transactions and reachable states *)

(** The state-changing entry points of the contract. *)
Inductive Call : Type :=
| AuthorizeIssuer (issuer : address)
| IssueEncryptedVC (subject : address) (ty score weight : euint32)
| UpdateReputationProfile (subject : address)
| GenerateReputationProof (subject : address) (minScore : euint32)
| RequestProofDecryption (proofId : N)
| DecryptReputationProof (requestId : N) (cleartexts proof : list Z)
| IssueAnonymousAttestation (subject : address) (score : euint32)
| RevokeCredential (vcId : N)
| IssueCrossPlatformCredential (subject : address) (score : euint32)
| GenerateTimeBoundProof (subject : address) (minScore : euint32)
    (validityPeriod : N)
| IssueCommunityEndorsement (subject : address) (score : euint32)
| GenerateCompositeProof (subject : address) (requirements : list euint32)
| ProtectUserPrivacy (subject : address)
| IssueSkillCertification (subject : address) (score : euint32)
| IssueDIDScore (subject : address) (score : euint32).

Definition discard {A : Type} (m : M A) : M unit := m ≫= λ _, mret tt.

Definition exec (env : Env) (c : Call) : M unit :=
  match c with
  | AuthorizeIssuer a => authorizeIssuer env a
  | IssueEncryptedVC subj ty sc w => issueEncryptedVC env subj ty sc w
  | UpdateReputationProfile subj => updateReputationProfile subj
  | GenerateReputationProof subj t => discard (generateReputationProof subj t)
  | RequestProofDecryption pid => requestProofDecryption env pid
  | DecryptReputationProof rid cts proof =>
      decryptReputationProof env rid cts proof
  | IssueAnonymousAttestation subj sc => issueAnonymousAttestation env subj sc
  | RevokeCredential vcId => revokeCredential env vcId
  | IssueCrossPlatformCredential subj sc =>
      issueCrossPlatformCredential env subj sc
  | GenerateTimeBoundProof subj t vp =>
      discard (generateTimeBoundProof subj t vp)
  | IssueCommunityEndorsement subj sc => issueCommunityEndorsement env subj sc
  | GenerateCompositeProof subj reqs =>
      discard (generateCompositeProof subj reqs)
  | ProtectUserPrivacy subj => protectUserPrivacy env subj
  | IssueSkillCertification subj sc => issueSkillCertification env subj sc
  | IssueDIDScore subj sc => issueDIDScore env subj sc
  end.

(** The storage after one transaction: a revert rolls everything back. *)
Definition step (s : State) (tx : Env * Call) : State :=
  fst (run (exec (fst tx) (snd tx)) s).

Definition run_trace (txs : list (Env * Call)) (s : State) : State :=
  fold_left step txs s.

Inductive reachable : State → Prop :=
| reachable_deploy (env : Env) : reachable (constructor env)
| reachable_step (s : State) (tx : Env * Call) :
    reachable s → reachable (step s tx).

(** The calls that change what a recomputation reads: issuing (under any
    of its wrappers) and revoking. *)
Definition is_credential_change (c : Call) : bool :=
  match c with
  | IssueEncryptedVC _ _ _ _ | IssueAnonymousAttestation _ _
  | IssueCrossPlatformCredential _ _ | IssueCommunityEndorsement _ _
  | IssueSkillCertification _ _ | IssueDIDScore _ _
  | RevokeCredential _ => true
  | _ => false
  end.


(** ** The aggregate of the specification *)

(** The credentials of a subject that count: those of its list whose
    active flag is set. *)
Definition active_credentials (s : State) (subj : address)
  : list EncryptedVC :=
  List.filter isActive (map (vcAt s) (credentialsOf s subj)).

(** The same, leaving one credential id out of the subject's list. *)
Definition active_credentials_except (s : State) (subj : address) (c : N)
  : list EncryptedVC :=
  List.filter isActive
    (map (vcAt s) (List.filter (λ i, negb (i =? c)) (credentialsOf s subj))).

(** A sum in the encrypted domain. *)
Definition esum (l : list euint32) : euint32 :=
  foldr FHE.add (asEuint32 0) l.

Definition weighted_score (vc : EncryptedVC) : euint32 :=
  FHE.mul (encryptedScore vc) (encryptedWeight vc).

(** Section 4.2 of the specification, word for word:
      totalScore = (sum of score x weight) / max(sum of weight, 1)
      trustLevel = (totalScore / 10) + (credentialCount / 5)
      credentialCount = count of active credentials
    over the list [act] of the credentials that count. *)
Definition spec_totalScore (act : list EncryptedVC) : euint32 :=
  FHE.div (esum (map weighted_score act))
          (FHE.max (esum (map encryptedWeight act)) (asEuint32 1)).

Definition spec_credentialCount (act : list EncryptedVC) : euint32 :=
  asEuint32 (Z.of_nat (length act)).

Definition spec_trustLevel (act : list EncryptedVC) : euint32 :=
  FHE.add (FHE.div (spec_totalScore act) (asEuint32 10))
          (FHE.div (spec_credentialCount act) (asEuint32 5)).

Definition aggregate (act : list EncryptedVC) : ReputationProfile :=
  {| encryptedTotalScore := spec_totalScore act;
     encryptedTrustLevel := spec_trustLevel act;
     encryptedCredentialCount := spec_credentialCount act;
     isInitialized := true |}.

Definition sumZ (l : list Z) : Z := foldr Z.add 0%Z l.

(** An id was never issued when no subject's credential list records it:
    [issueEncryptedVC] pushes every id it assigns, and nothing is ever
    removed from these lists. *)
Definition never_issued (s : State) (vcId : N) : Prop :=
  ∀ subj : address, vcId ∉ credentialsOf s subj.

(** ** Invariants of the reachable states *)

Record Inv (s : State) : Prop := mkInv {
  inv_initialized : ∀ subj : address,
    isInitialized (profileAt s subj) = true ↔ credentialsOf s subj ≠ [];
  inv_revealed : ∀ proofId : N,
    isRevealed (decryptedAt s proofId) = true →
    proofId ≠ 0 ∧ isValid (proofAt s proofId) = true;
  inv_issued : ∀ vcId : N,
    vcAt s vcId ≠ zeroVC → vcId ∈ credentialsOf s (subject (vcAt s vcId));
  inv_total_wf : ∀ subj : address,
    wf32 (encryptedTotalScore (profileAt s subj))
}.

(** ** A worked example *)

Module Example.

Definition admin : address := 100.
Definition issuerA : address := 7.
Definition S : address := 42.

Definition as_ (a : address) : Env := mkEnv a 1000 0 true.

Definition deployed : State := constructor (as_ admin).

Definition txs_one : list (Env * Call) :=
  [ (as_ admin, AuthorizeIssuer issuerA);
    (as_ issuerA, IssueEncryptedVC S (Enc 1) (Enc 80) (Enc 1));
    (as_ S, UpdateReputationProfile S) ].

Definition txs_two : list (Env * Call) :=
  txs_one ++
  [ (as_ issuerA, IssueEncryptedVC S (Enc 1) (Enc 60) (Enc 1));
    (as_ S, UpdateReputationProfile S) ].

Definition txs_revoked : list (Env * Call) :=
  txs_two ++
  [ (as_ issuerA, RevokeCredential 2);
    (as_ S, UpdateReputationProfile S) ].

(** A proof that S scores at least 50, requested under the oracle's
    request id 77 and revealed by the callback. *)
Definition relayer : address := 9.
Definition requesting : Env := mkEnv S 1000 77 true.

Definition txs_revealed : list (Env * Call) :=
  txs_one ++
  [ (as_ S, GenerateReputationProof S (Enc 50));
    (requesting, RequestProofDecryption 2);
    (as_ relayer, DecryptReputationProof 77 [50%Z; 80%Z] []) ].

Definition st_one : State := run_trace txs_one deployed.
Definition st_revealed : State := run_trace txs_revealed deployed.
Definition st_two : State := run_trace txs_two deployed.
Definition st_revoked : State := run_trace txs_revoked deployed.

End Example.

(** * The read-only metrics *)

(** [uint32(x)] on a 256-bit value: truncation. *)
Definition uint32_of (n : N) : Z := (Z.of_N n mod modulus32)%Z.

(** Checked subtraction of Solidity 0.8: an underflow reverts. *)
Definition checked_sub (a b : N) : M N :=
  require (b <=? a) ArithmeticPanic;; mret (a - b).

Definition checked_sub32 (a b : Z) : M Z :=
  require (b <=? a)%Z ArithmeticPanic;; mret (a - b)%Z.

(** A loop whose body may revert, over the elements of an array. *)
Fixpoint for_each {A B : Type} (body : B → A → M B) (l : list A) (acc : B)
  : M B :=
  match l with
  | [] => mret acc
  | x :: l' => acc' ← body acc x; for_each body l' acc'
  end.

(** [verifyCredential], lines 224-230. *)
Definition verifyCredential (vcId : N) : M ebool :=
  vc ← gets (λ s, vcAt s vcId);
  mret (FHE.and (asEbool (isActive vc))
                (FHE.gt (encryptedScore vc) (asEuint32 0))).

(** The inner and the outer loop body of [calculateCredentialDiversity];
    the arrays are read by index, and every index is in range. *)
Definition diversity_inner (s : State) (credentials : list N) (i : nat)
    (diversity : euint32) (j : nat) : euint32 :=
  let vc1 := vcAt s (nth i credentials 0) in
  let vc2 := vcAt s (nth j credentials 0) in
  let differentType := FHE.neq (encryptedType vc1) (encryptedType vc2) in
  FHE.add diversity (FHE.cmux differentType (asEuint32 1) (asEuint32 0)).

Definition diversity_outer (s : State) (credentials : list N)
    (diversity : euint32) (i : nat) : euint32 :=
  fold_left (diversity_inner s credentials i)
    (seq (i + 1) (length credentials - (i + 1))) diversity.

(** [calculateCredentialDiversity], lines 233-252. *)
Definition calculateCredentialDiversity (subject : address) : M euint32 :=
  credentials ← gets (λ s, credentialsOf s subject);
  if (length credentials <? 2)%nat
  then mret (asEuint32 0)
  else gets (λ s, fold_left (diversity_outer s credentials)
                    (seq 0 (length credentials)) (asEuint32 0)).

(** [generateZKProof], lines 255-260. *)
Definition generateZKProof (subject : address) (encryptedThreshold : euint32)
  : M ebool :=
  profile ← gets (λ s, profileAt s subject);
  require (isInitialized profile) ProfileNotInitialized;;
  mret (FHE.gte (encryptedTotalScore profile) encryptedThreshold).

(** The body of the loop of [calculateReputationDecay]: the subtraction of
    the two truncated timestamps is checked. *)
Definition add_decay (s : State) (currentTime : Z) (decay : euint32)
    (credId : N) : M euint32 :=
  let vc := vcAt s credId in
  age ← checked_sub32 currentTime (uint32_of (timestamp vc));
  mret (FHE.add decay
          (FHE.div (FHE.mul (encryptedScore vc) (asEuint32 age))
                   (asEuint32 31536000))).

(** [calculateReputationDecay], lines 263-286. *)
Definition calculateReputationDecay (env : Env) (subject : address)
  : M euint32 :=
  profile ← gets (λ s, profileAt s subject);
  require (isInitialized profile) ProfileNotInitialized;;
  credentials ← gets (λ s, credentialsOf s subject);
  let currentTime := uint32_of (block_timestamp env) in
  s ← gets (λ s, s);
  for_each (add_decay s currentTime) credentials (asEuint32 0).

(** [calculateSybilResistance], lines 296-306. *)
Definition calculateSybilResistance (subject : address) : M euint32 :=
  profile ← gets (λ s, profileAt s subject);
  require (isInitialized profile) ProfileNotInitialized;;
  diversity ← calculateCredentialDiversity subject;
  mret (FHE.div (FHE.mul diversity (asEuint32 100))
                (encryptedCredentialCount profile)).

(** [calculatePortability], lines 367-376. *)
Definition calculatePortability (subject : address) : M euint32 :=
  profile ← gets (λ s, profileAt s subject);
  require (isInitialized profile) ProfileNotInitialized;;
  mret (FHE.div (FHE.add (encryptedTrustLevel profile)
                         (encryptedCredentialCount profile))
                (asEuint32 2)).

(** [calculateGovernanceWeight], lines 419-424. *)
Definition calculateGovernanceWeight (subject : address) : M euint32 :=
  profile ← gets (λ s, profileAt s subject);
  require (isInitialized profile) ProfileNotInitialized;;
  mret (FHE.div (encryptedTrustLevel profile) (asEuint32 10)).

(** [verifyCredentialOwnership], lines 427-430. *)
Definition verifyCredentialOwnership (subject : address) (vcId : N)
  : M ebool :=
  vc ← gets (λ s, vcAt s vcId);
  let 'mkEncryptedVC _ _ vcSubject _ _ _ _ _ := vc in
  mret (asEbool (vcSubject =? subject)).

(** [calculateReputationVelocity], lines 433-444. *)
Definition calculateReputationVelocity (subject : address) : M euint32 :=
  credentials ← gets (λ s, credentialsOf s subject);
  if (length credentials <? 2)%nat
  then mret (asEuint32 0)
  else
    firstVC ← gets (λ s, vcAt s (nth 0 credentials 0));
    lastVC ← gets (λ s, vcAt s (nth (length credentials - 1) credentials 0));
    let scoreDelta :=
      FHE.sub (encryptedScore lastVC) (encryptedScore firstVC) in
    elapsed ← checked_sub (timestamp lastVC) (timestamp firstVC);
    let timeDelta := asEuint32 (uint32_of elapsed) in
    mret (FHE.div scoreDelta (FHE.max timeDelta (asEuint32 1))).

(** [calculateSocialCapital], lines 453-459. *)
Definition calculateSocialCapital (subject : address) : M euint32 :=
  profile ← gets (λ s, profileAt s subject);
  require (isInitialized profile) ProfileNotInitialized;;
  mret (FHE.mul (encryptedTrustLevel profile)
                (encryptedCredentialCount profile)).

(** [calculateStability], lines 501-509. *)
Definition calculateStability (subject : address) : M euint32 :=
  consistency ← calculateConsistency subject;
  velocity ← calculateReputationVelocity subject;
  mret (FHE.sub consistency (FHE.div velocity (asEuint32 10))).

(** [calculateWeightedReputation], lines 518-523. *)
Definition calculateWeightedReputation (subject : address) : M euint32 :=
  profile ← gets (λ s, profileAt s subject);
  require (isInitialized profile) ProfileNotInitialized;;
  mret (encryptedTotalScore profile).

(** [verifyProofWithoutDecryption], lines 526-531. *)
Definition verifyProofWithoutDecryption (proofId : N) : M ebool :=
  proof ← gets (λ s, proofAt s proofId);
  require (isValid proof) InvalidProof;;
  mret (FHE.gt (encryptedProof proof) (asEuint32 0)).

(** [generateScorecard], lines 549-561: the five entries, in order. *)
Definition generateScorecard (subject : address) : M (list euint32) :=
  profile ← gets (λ s, profileAt s subject);
  require (isInitialized profile) ProfileNotInitialized;;
  consistency ← calculateConsistency subject;
  sybil ← calculateSybilResistance subject;
  stability ← calculateStability subject;
  mret [encryptedTotalScore profile; encryptedTrustLevel profile;
        consistency; sybil; stability].

(** ** What one transaction can do to the storage *)

(** Six kinds of change cover every call: nothing that the ledgers show,
    a credential issued under the next id, a proof stored under the next
    id, a request routed to a valid proof, a proof revealed, a credential
    revoked. *)
Definition same_count (s s' : State) : Prop := vcCount s' = vcCount s.
Definition same_credentials (s s' : State) : Prop :=
  ∀ i, vcAt s' i = vcAt s i.
Definition same_lists (s s' : State) : Prop :=
  ∀ a, credentialsOf s' a = credentialsOf s a.
Definition same_proofs (s s' : State) : Prop :=
  ∀ i, proofAt s' i = proofAt s i.
Definition same_revealed (s s' : State) : Prop :=
  ∀ i, decryptedAt s' i = decryptedAt s i.
Definition same_router (s s' : State) : Prop :=
  ∀ r, proofIdOf s' r = proofIdOf s r.

Inductive effect (s s' : State) : Prop :=
| effect_none :
    same_count s s' → same_credentials s s' → same_lists s s' →
    same_proofs s s' → same_revealed s s' → same_router s s' →
    effect s s'
| effect_issue (vc : EncryptedVC) :
    vc_id vc = vcCount s + 1 → isActive vc = true →
    vcCount s' = vcCount s + 1 →
    (∀ i, vcAt s' i = if decide (vcCount s + 1 = i) then vc else vcAt s i) →
    (∀ a, credentialsOf s' a =
          if decide (subject vc = a)
          then credentialsOf s a ++ [vcCount s + 1]
          else credentialsOf s a) →
    same_proofs s s' → same_revealed s s' → same_router s s' →
    effect s s'
| effect_proof (rp : ReputationProof) :
    vcCount s' = vcCount s + 1 →
    (∀ i, proofAt s' i =
          if decide (vcCount s + 1 = i) then rp else proofAt s i) →
    (∀ i, decryptedAt s' i =
          if decide (vcCount s + 1 = i) then zeroDecrypted
          else decryptedAt s i) →
    same_credentials s s' → same_lists s s' → same_router s s' →
    effect s s'
| effect_route (requestId proofId : N) :
    isValid (proofAt s proofId) = true →
    isRevealed (decryptedAt s proofId) = false →
    (∀ r, proofIdOf s' r =
          if decide (requestId = r) then proofId else proofIdOf s r) →
    same_count s s' → same_credentials s s' → same_lists s s' →
    same_proofs s s' → same_revealed s s' →
    effect s s'
| effect_reveal (proofId : N) (a b : Z) :
    proofId ≠ 0 →
    isValid (proofAt s proofId) = true →
    isRevealed (decryptedAt s proofId) = false →
    (∀ i, decryptedAt s' i =
          if decide (proofId = i) then mkDecryptedProof a b true
          else decryptedAt s i) →
    same_count s s' → same_credentials s s' → same_lists s s' →
    same_proofs s s' → same_router s s' →
    effect s s'
| effect_revoke (vcId : N) :
    (∀ i, vcAt s' i =
          if decide (vcId = i) then with_isActive false (vcAt s vcId)
          else vcAt s i) →
    same_count s s' → same_lists s s' →
    same_proofs s s' → same_revealed s s' → same_router s s' →
    effect s s'.

(** ** Invariants of the id space *)

Record Ids (s : State) : Prop := mkIds {
  ids_zero :
    vcAt s 0 = zeroVC ∧ proofAt s 0 = zeroProof ∧
    decryptedAt s 0 = zeroDecrypted;
  ids_fresh : ∀ i, vcCount s < i →
    vcAt s i = zeroVC ∧ proofAt s i = zeroProof ∧
    decryptedAt s i = zeroDecrypted;
  ids_recorded : ∀ a i, i ∈ credentialsOf s a →
    1 ≤ i ≤ vcCount s ∧ vc_id (vcAt s i) = i ∧ subject (vcAt s i) = a ∧
    proofAt s i = zeroProof ∧ decryptedAt s i = zeroDecrypted;
  ids_nodup : ∀ a, NoDup (credentialsOf s a);
  ids_proof : ∀ i,
    proofAt s i ≠ zeroProof ∨ decryptedAt s i ≠ zeroDecrypted →
    vcAt s i = zeroVC;
  ids_routed : ∀ r, proofIdOf s r ≠ 0 →
    isValid (proofAt s (proofIdOf s r)) = true
}.

(** ** What the metrics compute *)

(** The number of pairs of positions i < j of a list whose entries
    differ. *)
Fixpoint distinct_pairs (l : list Z) : nat :=
  match l with
  | [] => 0
  | x :: l' =>
      length (List.filter (λ y, negb (x =? y)%Z) l') + distinct_pairs l'
  end.

(** The types, as integers, of the credentials of a subject's list. *)
Definition credential_types (s : State) (subj : address) : list Z :=
  map (λ i, reveal (encryptedType (vcAt s i))) (credentialsOf s subj).

(** The thresholds of a composite proof that the total score reaches. *)
Definition met_thresholds (total : euint32) (requirements : list euint32)
  : list euint32 :=
  List.filter (λ r, (reveal r <=? reveal total)%Z) requirements.

(** A call that authorizes [a], sent by [admin]. *)
Definition authorizes (admin a : address) (tx : Env * Call) : bool :=
  match snd tx with
  | AuthorizeIssuer a' => (msg_sender (fst tx) =? admin) && (a' =? a)
  | _ => false
  end.

(** ** A second scenario *)

Module Scenario.

Definition admin : address := 100.
Definition issuerA : address := 7.
Definition issuerB : address := 8.
Definition alice : address := 42.
Definition bob : address := 43.

Definition at_time (a : address) (t : N) : Env := mkEnv a t 0 true.
Definition asking (a : address) (reqId : N) : Env := mkEnv a 5000 reqId true.

Definition deployed : State := constructor (at_time admin 1000).

(** Alice holds three credentials of two types from two issuers, Bob one;
    then a proof about Alice is generated and requested twice. *)
Definition txs_issued : list (Env * Call) :=
  [ (at_time admin 1000, AuthorizeIssuer issuerA);
    (at_time admin 1001, AuthorizeIssuer issuerB);
    (at_time issuerA 2000, IssueEncryptedVC alice (Enc 1) (Enc 80) (Enc 1));
    (at_time issuerB 2500, IssueSkillCertification alice (Enc 60));
    (at_time issuerA 3000, IssueAnonymousAttestation bob (Enc 10));
    (at_time issuerA 4000, IssueEncryptedVC alice (Enc 1) (Enc 40) (Enc 2));
    (at_time alice 4001, UpdateReputationProfile alice) ].

Definition txs_requested : list (Env * Call) :=
  txs_issued ++
  [ (at_time alice 4500, GenerateReputationProof alice (Enc 50));
    (asking alice 11, RequestProofDecryption 5);
    (asking bob 12, RequestProofDecryption 5) ].

Definition st_issued : State := run_trace txs_issued deployed.
Definition st_requested : State := run_trace txs_requested deployed.

End Scenario.

(** * Proofs *)

(** ** Reading and writing the storage *)

Ltac unfold_M :=
  unfold mbind, mret, M_bind, M_ret, gets, modify, require, revert,
    discard in *.

Lemma default_lookup_insert {V : Type} (z v : V) (m : gmap N V) (k k' : N) :
  default z (<[k := v]> m !! k') =
  if decide (k = k') then v else default z (m !! k').
Proof. rewrite lookup_insert. by case_decide. Qed.

Lemma profileAt_write_profile s subj f a :
  profileAt (write_profile subj f s) a =
  if decide (subj = a) then f (profileAt s subj) else profileAt s a.
Proof. unfold write_profile, profileAt. cbn. apply default_lookup_insert. Qed.

Lemma write_profile_write_profile s subj f g :
  write_profile subj f (write_profile subj g s) =
  write_profile subj (λ p, f (g p)) s.
Proof.
  unfold write_profile at 1. rewrite profileAt_write_profile.
  rewrite decide_True by done.
  unfold write_profile, set_reputationProfiles. cbn.
  by rewrite insert_insert_eq.
Qed.

Lemma vcAt_write_vc s vcId f i :
  vcAt (write_vc vcId f s) i =
  if decide (vcId = i) then f (vcAt s vcId) else vcAt s i.
Proof. unfold write_vc, vcAt. cbn. apply default_lookup_insert. Qed.

Lemma write_vc_write_vc s vcId f g :
  write_vc vcId f (write_vc vcId g s) = write_vc vcId (λ vc, f (g vc)) s.
Proof.
  unfold write_vc at 1. rewrite vcAt_write_vc.
  rewrite decide_True by done.
  unfold write_vc, set_verifiableCredentials. cbn.
  by rewrite insert_insert_eq.
Qed.

Lemma proofAt_write_proof s proofId f i :
  proofAt (write_proof proofId f s) i =
  if decide (proofId = i) then f (proofAt s proofId) else proofAt s i.
Proof. unfold write_proof, proofAt. cbn. apply default_lookup_insert. Qed.

Lemma decryptedAt_write_decrypted s proofId f i :
  decryptedAt (write_decrypted proofId f s) i =
  if decide (proofId = i) then f (decryptedAt s proofId) else decryptedAt s i.
Proof.
  unfold write_decrypted, decryptedAt. cbn. apply default_lookup_insert.
Qed.

Lemma write_decrypted_write_decrypted s proofId f g :
  write_decrypted proofId f (write_decrypted proofId g s) =
  write_decrypted proofId (λ d, f (g d)) s.
Proof.
  unfold write_decrypted at 1. rewrite decryptedAt_write_decrypted.
  rewrite decide_True by done.
  unfold write_decrypted, set_decryptedProofs. cbn.
  by rewrite insert_insert_eq.
Qed.

(** ** Arithmetic of the engine *)

Lemma modulus32_pos : (0 < modulus32)%Z.
Proof. reflexivity. Qed.

Lemma wf32_mod (x : Z) : wf32 (Enc (x mod modulus32)).
Proof. unfold wf32. cbn. apply Z.mod_pos_bound, modulus32_pos. Qed.

Lemma sumZ_cons (a : Z) (l : list Z) : sumZ (a :: l) = (a + sumZ l)%Z.
Proof. reflexivity. Qed.

Lemma esum_reveal (l : list euint32) :
  esum l = Enc (sumZ (map reveal l) mod modulus32).
Proof.
  induction l as [|a l IH]; [reflexivity|].
  change (esum (a :: l)) with (FHE.add a (esum l)).
  rewrite IH. unfold FHE.add. cbn. by rewrite Zplus_mod_idemp_r.
Qed.

Lemma add_mod_l (x : Z) (b : euint32) :
  FHE.add (Enc (x mod modulus32)) b = Enc ((x + reveal b) mod modulus32).
Proof. unfold FHE.add. cbn [reveal]. by rewrite Zplus_mod_idemp_l. Qed.

(** The loop of [updateReputationProfile], closed: each running value is
    the 32-bit sum of what the active credentials contribute. *)
Lemma fold_accumulate s ids x y z :
  let act := List.filter isActive (map (vcAt s) ids) in
  fold_left (accumulate s) ids
    (Enc (x mod modulus32), Enc (y mod modulus32), Enc (z mod modulus32)) =
  (Enc ((x + sumZ (map reveal (map weighted_score act))) mod modulus32),
   Enc ((y + sumZ (map reveal (map encryptedWeight act))) mod modulus32),
   Enc ((z + Z.of_nat (length act)) mod modulus32)).
Proof.
  revert x y z. induction ids as [|i ids IH]; intros x y z.
  - cbn [map List.filter fold_left length sumZ foldr].
    by rewrite !Z.add_0_r.
  - cbn [map List.filter fold_left]. unfold accumulate at 2.
    destruct (isActive (vcAt s i)) eqn:Hact.
    + fold (weighted_score (vcAt s i)).
      rewrite !add_mod_l, IH.
      change (reveal (asEuint32 1)) with 1%Z.
      cbn [map length]. unfold sumZ. cbn [foldr].
      f_equal; [f_equal|]; f_equal; f_equal; lia.
    + apply IH.
Qed.

Lemma fold_accumulate_zero s ids :
  let act := List.filter isActive (map (vcAt s) ids) in
  fold_left (accumulate s) ids (asEuint32 0, asEuint32 0, asEuint32 0) =
  (esum (map weighted_score act), esum (map encryptedWeight act),
   spec_credentialCount act).
Proof.
  cbn. rewrite !esum_reveal. unfold spec_credentialCount, asEuint32.
  change (0 mod modulus32)%Z with (0 mod modulus32 mod modulus32)%Z.
  change (0 mod modulus32 mod modulus32)%Z with (0 mod modulus32)%Z at 1.
  apply (fold_accumulate s ids 0 0 0).
Qed.

(** ** Recomputation *)

Lemma write_profile_ext s subj f g :
  f (profileAt s subj) = g (profileAt s subj) →
  write_profile subj f s = write_profile subj g s.
Proof. intros H. unfold write_profile. by rewrite H. Qed.

(** [updateReputationProfile] in closed form: it reverts on a profile that
    is not initialized, and otherwise replaces the subject's profile by the
    aggregate of the specification. *)
Lemma updateReputationProfile_eq subj s :
  updateReputationProfile subj s =
  if isInitialized (profileAt s subj)
  then Ok (tt, write_profile subj
                 (λ _, aggregate (active_credentials s subj)) s)
  else Revert ProfileNotInitialized.
Proof.
  unfold updateReputationProfile. unfold_M.
  destruct (isInitialized (profileAt s subj)) eqn:Hinit; [|reflexivity].
  cbn. rewrite fold_accumulate_zero. cbn beta iota zeta.
  rewrite !write_profile_write_profile, profileAt_write_profile.
  rewrite decide_True by done.
  do 2 f_equal. apply write_profile_ext.
  unfold aggregate, spec_trustLevel, spec_totalScore, calculateTrustLevel,
    with_encryptedTrustLevel, with_encryptedCredentialCount,
    with_encryptedTotalScore, active_credentials.
  cbn. by rewrite Hinit.
Qed.

Lemma run_updateReputationProfile_ok subj s :
  isInitialized (profileAt s subj) = true →
  run (updateReputationProfile subj) s =
  (write_profile subj (λ _, aggregate (active_credentials s subj)) s, Ok tt).
Proof.
  intros H. unfold run. by rewrite updateReputationProfile_eq, H.
Qed.


(** The integer reading of the aggregate: the two sums and the count are
    taken modulo 2^32, the division is floor division, and the trust level
    never wraps. *)
Lemma spec_totalScore_reveal act :
  reveal (spec_totalScore act) =
  ((sumZ (map (λ vc, reveal (encryptedScore vc) * reveal (encryptedWeight vc))
            act) mod modulus32)
   / Z.max (sumZ (map (λ vc, reveal (encryptedWeight vc)) act) mod modulus32) 1)%Z.
Proof.
  unfold spec_totalScore. rewrite !esum_reveal. rewrite !map_map.
  unfold FHE.div, FHE.max. cbn [reveal].
  change (reveal (asEuint32 1)) with 1%Z.
  set (w := (sumZ (map (λ x, reveal (encryptedWeight x)) act) mod modulus32)%Z).
  assert (Hw : (0 <= w < modulus32)%Z) by apply Z.mod_pos_bound, modulus32_pos.
  assert (Heq : (sumZ (map (λ x, reveal (weighted_score x)) act) mod modulus32
                 = sumZ (map (λ vc, reveal (encryptedScore vc)
                                    * reveal (encryptedWeight vc)) act)
                   mod modulus32)%Z).
  { clear. induction act as [|vc act IH]; [reflexivity|].
    rewrite !map_cons, !sumZ_cons.
    rewrite <- Zplus_mod_idemp_r, IH, Zplus_mod_idemp_r.
    unfold weighted_score, FHE.mul. cbn [reveal].
    by rewrite Zplus_mod_idemp_l. }
  rewrite Heq.
  set (n := (sumZ _ mod modulus32)%Z).
  assert (Hn : (0 <= n < modulus32)%Z) by apply Z.mod_pos_bound, modulus32_pos.
  assert (Hm : (1 <= Z.max w 1 < modulus32)%Z) by (unfold modulus32 in *; lia).
  rewrite (Z.mod_small (Z.max w 1)) by lia.
  apply Z.mod_small. split.
  - apply Z.div_pos; lia.
  - apply Z.le_lt_trans with n; [|lia].
    apply Z.div_le_upper_bound; nia.
Qed.

Lemma spec_credentialCount_reveal act :
  reveal (spec_credentialCount act) = (Z.of_nat (length act) mod modulus32)%Z.
Proof. reflexivity. Qed.

(** When neither sum nor the count reaches 2^32 nothing wraps, and the
    aggregate is the plain integer formula. *)
Lemma aggregate_without_overflow act :
  let sw := sumZ (map (λ vc, (reveal (encryptedScore vc)
                              * reveal (encryptedWeight vc))%Z) act) in
  let w := sumZ (map (λ vc, reveal (encryptedWeight vc)) act) in
  (0 <= sw < modulus32)%Z → (0 <= w < modulus32)%Z →
  (Z.of_nat (length act) < modulus32)%Z →
  reveal (spec_totalScore act) = (sw / Z.max w 1)%Z ∧
  reveal (spec_credentialCount act) = Z.of_nat (length act).
Proof.
  intros sw w Hsw Hw Hlen. split.
  - rewrite spec_totalScore_reveal. fold sw w.
    by rewrite !Z.mod_small.
  - rewrite spec_credentialCount_reveal. apply Z.mod_small. lia.
Qed.

Lemma spec_totalScore_wf act : wf32 (spec_totalScore act).
Proof. unfold spec_totalScore, FHE.div. apply wf32_mod. Qed.


(** ** The entry points in closed form *)

Lemma authorizeIssuer_eq env a s :
  authorizeIssuer env a s =
  if msg_sender env =? systemAdmin s
  then Ok (tt, set_trustedIssuers (<[a := true]> (trustedIssuers s)) s)
  else Revert NotAdmin.
Proof.
  unfold authorizeIssuer, onlyAdmin. unfold_M.
  by destruct (msg_sender env =? systemAdmin s).
Qed.

Lemma issueEncryptedVC_eq env subj ty sc w s :
  issueEncryptedVC env subj ty sc w s =
  if isTrustedIssuer s (msg_sender env)
  then
    if vcCount s <? MAX_UINT256
    then
      let newId := vcCount s + 1 in
      let s1 :=
        set_userCredentials
          (<[subj := credentialsOf s subj ++ [newId]]> (userCredentials s))
          (set_verifiableCredentials
             (<[newId := mkEncryptedVC newId (msg_sender env) subj ty sc w
                           (block_timestamp env) true]>
                (verifiableCredentials s))
             (set_vcCount newId s)) in
      Ok (tt,
          if isInitialized (profileAt s subj)
          then s1
          else set_reputationProfiles
                 (<[subj := mkReputationProfile (asEuint32 0) (asEuint32 0)
                              (asEuint32 0) true]>
                    (reputationProfiles s)) s1)
    else Revert ArithmeticPanic
  else Revert NotTrustedIssuer.
Proof.
  unfold issueEncryptedVC, onlyIssuer, increment_vcCount. unfold_M.
  destruct (isTrustedIssuer s (msg_sender env)); cbn; [|reflexivity].
  destruct (vcCount s <? MAX_UINT256); cbn; [|reflexivity].
  unfold profileAt. cbn.
  by destruct (isInitialized (default zeroProfile (reputationProfiles s !! subj))).
Qed.

Lemma generateReputationProof_eq subj t s :
  generateReputationProof subj t s =
  if isInitialized (profileAt s subj)
  then
    if vcCount s <? MAX_UINT256
    then
      let newProofId := vcCount s + 1 in
      let total := encryptedTotalScore (profileAt s subj) in
      Ok (newProofId,
          set_decryptedProofs
            (<[newProofId := mkDecryptedProof 0 0 false]> (decryptedProofs s))
            (set_reputationProofs
               (<[newProofId :=
                    mkReputationProof t
                      (FHE.cmux (FHE.gte total t) total (asEuint32 0)) true]>
                  (reputationProofs s))
               (set_vcCount newProofId s)))
    else Revert ArithmeticPanic
  else Revert ProfileNotInitialized.
Proof.
  unfold generateReputationProof, increment_vcCount. unfold_M.
  destruct (isInitialized (profileAt s subj)); cbn; [|reflexivity].
  by destruct (vcCount s <? MAX_UINT256).
Qed.

Lemma generateTimeBoundProof_eq subj t vp s :
  generateTimeBoundProof subj t vp s =
  match generateReputationProof subj t s with
  | Ok (proofId, s') => Ok (proofId, write_proof proofId (with_isValid false) s')
  | Revert e => Revert e
  end.
Proof. reflexivity. Qed.

Lemma generateCompositeProof_eq subj reqs s :
  generateCompositeProof subj reqs s =
  if isInitialized (profileAt s subj)
  then
    if vcCount s <? MAX_UINT256
    then
      let newProofId := vcCount s + 1 in
      let folded :=
        fold_left (meet_requirement (encryptedTotalScore (profileAt s subj)))
          reqs (asEbool true, asEuint32 0) in
      Ok (newProofId,
          set_decryptedProofs
            (<[newProofId := mkDecryptedProof 0 0 false]> (decryptedProofs s))
            (set_reputationProofs
               (<[newProofId :=
                    mkReputationProof
                      (FHE.cmux (fst folded) (asEuint32 1) (asEuint32 0))
                      (snd folded) true]>
                  (reputationProofs s))
               (set_vcCount newProofId s)))
    else Revert ArithmeticPanic
  else Revert ProfileNotInitialized.
Proof.
  unfold generateCompositeProof, increment_vcCount. unfold_M.
  destruct (isInitialized (profileAt s subj)); cbn; [|reflexivity].
  destruct (fold_left _ _ _) as [meetsAll compositeProof].
  by destruct (vcCount s <? MAX_UINT256).
Qed.

Lemma requestProofDecryption_eq env proofId s :
  requestProofDecryption env proofId s =
  if isValid (proofAt s proofId)
  then
    if isRevealed (decryptedAt s proofId)
    then Revert AlreadyDecrypted
    else Ok (tt, set_requestToProofId
                   (<[oracle_requestId env := proofId]> (requestToProofId s)) s)
  else Revert InvalidProof.
Proof.
  unfold requestProofDecryption, requestDecryption. unfold_M.
  destruct (isValid (proofAt s proofId)); cbn; [|reflexivity].
  by destruct (isRevealed (decryptedAt s proofId)).
Qed.

Lemma revokeCredential_eq env vcId s :
  revokeCredential env vcId s =
  if issuer (vcAt s vcId) =? msg_sender env
  then Ok (tt, write_vc vcId (with_isActive false) s)
  else Revert NotIssuer.
Proof.
  unfold revokeCredential. unfold_M.
  by destruct (issuer (vcAt s vcId) =? msg_sender env).
Qed.

(** The guards of the callback, in the order the contract checks them. *)
Lemma decryptReputationProof_guards env requestId cleartexts proof s :
  let proofId := proofIdOf s requestId in
  decryptReputationProof env requestId cleartexts proof s =
  if proofId =? 0 then Revert InvalidRequest
  else if negb (isValid (proofAt s proofId)) then Revert InvalidProof
  else if isRevealed (decryptedAt s proofId) then Revert AlreadyDecrypted
  else if negb (signatures_valid env) then Revert InvalidSignatures
  else match cleartexts with
       | a :: b :: _ =>
           if in_uint32 a && in_uint32 b
           then Ok (tt, write_decrypted proofId
                          (λ _, mkDecryptedProof a b true) s)
           else Revert AbiDecodeFailure
       | _ => Revert AbiDecodeFailure
       end.
Proof.
  unfold decryptReputationProof, checkSignatures, abi_decode_uint32_pair.
  unfold_M.
  destruct (proofIdOf s requestId =? 0); cbn; [reflexivity|].
  destruct (isValid (proofAt s (proofIdOf s requestId))); cbn; [|reflexivity].
  destruct (isRevealed (decryptedAt s (proofIdOf s requestId))); cbn;
    [reflexivity|].
  destruct (signatures_valid env); cbn; [|reflexivity].
  destruct cleartexts as [|a [|b cts]]; cbn; try reflexivity.
  destruct (in_uint32 a && in_uint32 b); cbn; [|reflexivity].
  by rewrite !write_decrypted_write_decrypted.
Qed.

Lemma decryptReputationProof_ok env requestId cleartexts proof s u s' :
  decryptReputationProof env requestId cleartexts proof s = Ok (u, s') →
  ∃ a b,
    proofIdOf s requestId ≠ 0 ∧
    isValid (proofAt s (proofIdOf s requestId)) = true ∧
    isRevealed (decryptedAt s (proofIdOf s requestId)) = false ∧
    s' = write_decrypted (proofIdOf s requestId)
           (λ _, mkDecryptedProof a b true) s.
Proof.
  rewrite decryptReputationProof_guards. cbn zeta.
  destruct (proofIdOf s requestId =? 0) eqn:Hz; [discriminate|].
  destruct (isValid (proofAt s (proofIdOf s requestId))); [|discriminate].
  destruct (isRevealed (decryptedAt s (proofIdOf s requestId)));
    [discriminate|].
  destruct (signatures_valid env); [|discriminate]. cbn [negb].
  destruct cleartexts as [|a [|b cts]]; try discriminate.
  destruct (in_uint32 a && in_uint32 b); [|discriminate].
  intros [= <- <-]. exists a, b. repeat split. by apply N.eqb_neq.
Qed.

Lemma run_ok_inv {A : Type} (m : M A) s s' a :
  run m s = (s', Ok a) → m s = Ok (a, s').
Proof.
  unfold run. destruct (m s) as [[a0 s0]|e]; [|discriminate].
  by intros [= <- <-].
Qed.

(** ** The invariants hold in every reachable state *)

Lemma Inv_deploy env : Inv (constructor env).
Proof.
  split; unfold profileAt, credentialsOf, decryptedAt, proofAt, vcAt; cbn;
    intros; rewrite ?lookup_empty in *; cbn in *.
  - split; [discriminate | congruence].
  - discriminate.
  - congruence.
  - unfold wf32. cbn. unfold modulus32. lia.
Qed.

(** The invariants only read five of the storage variables. *)
Lemma Inv_frame s s' :
  verifiableCredentials s' = verifiableCredentials s →
  reputationProfiles s' = reputationProfiles s →
  reputationProofs s' = reputationProofs s →
  decryptedProofs s' = decryptedProofs s →
  userCredentials s' = userCredentials s →
  Inv s → Inv s'.
Proof.
  intros Hvc Hpr Hpf Hdp Huc [Ha Hb Hc Hd].
  split; unfold profileAt, credentialsOf, decryptedAt, proofAt, vcAt in *;
    rewrite ?Hvc, ?Hpr, ?Hpf, ?Hdp, ?Huc; assumption.
Qed.

Lemma with_isActive_false_zero vc :
  with_isActive false vc ≠ zeroVC → vc ≠ zeroVC.
Proof. intros H ->. by apply H. Qed.

(** What a successful [issueEncryptedVC] leaves in the storage. *)
Lemma issueEncryptedVC_reads env subj ty sc w s u s' :
  issueEncryptedVC env subj ty sc w s = Ok (u, s') →
  isTrustedIssuer s (msg_sender env) = true ∧
  vcCount s' = vcCount s + 1 ∧
  (∀ i, vcAt s' i =
        if decide (vcCount s + 1 = i)
        then mkEncryptedVC (vcCount s + 1) (msg_sender env) subj ty sc w
               (block_timestamp env) true
        else vcAt s i) ∧
  (∀ a, credentialsOf s' a =
        if decide (subj = a) then credentialsOf s subj ++ [vcCount s + 1]
        else credentialsOf s a) ∧
  (∀ a, profileAt s' a =
        if decide (subj = a)
        then if isInitialized (profileAt s subj) then profileAt s subj
             else mkReputationProfile (asEuint32 0) (asEuint32 0)
                    (asEuint32 0) true
        else profileAt s a) ∧
  reputationProofs s' = reputationProofs s ∧
  decryptedProofs s' = decryptedProofs s ∧
  requestToProofId s' = requestToProofId s.
Proof.
  rewrite issueEncryptedVC_eq.
  destruct (isTrustedIssuer s (msg_sender env)); [|discriminate].
  destruct (vcCount s <? MAX_UINT256); [|discriminate].
  cbn zeta. intros [= <- <-].
  destruct (isInitialized (profileAt s subj)) eqn:Hinit;
    (split; [reflexivity|]); (split; [reflexivity|]);
    (split; [intros i; unfold vcAt; cbn; apply default_lookup_insert|]);
    (split; [intros a; unfold credentialsOf; cbn;
             apply default_lookup_insert|]);
    (split; [|by repeat split]); intros a.
  - unfold profileAt in *. cbn. case_decide; [by subst|done].
  - unfold profileAt in *. cbn. apply default_lookup_insert.
Qed.

Lemma Inv_issueEncryptedVC env subj ty sc w s u s' :
  issueEncryptedVC env subj ty sc w s = Ok (u, s') → Inv s → Inv s'.
Proof.
  intros (_ & _ & Hvc & Hcreds & Hprof & Hpf & Hdp & _)%issueEncryptedVC_reads
    [Ha Hb Hc Hd].
  split.
  - intros a. rewrite Hprof, Hcreds. case_decide; [subst a|apply Ha].
    destruct (isInitialized (profileAt s subj)) eqn:Hinit; cbn; rewrite ?Hinit;
      (split; [intros _|done]); by destruct (credentialsOf s subj).
  - intros p. unfold decryptedAt, proofAt in *. rewrite Hpf, Hdp. apply Hb.
  - intros i. rewrite Hvc, Hcreds. case_decide as Hi.
    + subst i. intros _. cbn. rewrite decide_True by done.
      apply elem_of_app. right. by apply list_elem_of_singleton.
    + intros Hnz. specialize (Hc i Hnz). case_decide as Hs; [|done].
      rewrite Hs. apply elem_of_app. by left.
  - intros a. rewrite Hprof. case_decide; [|apply Hd].
    destruct (isInitialized (profileAt s subj)); [apply Hd|apply wf32_mod].
Qed.

Lemma onlyIssuer_then {A : Type} env (m : M A) s r :
  (onlyIssuer env;; m) s = Ok r → m s = Ok r.
Proof.
  unfold onlyIssuer. unfold_M.
  by destruct (isTrustedIssuer s (msg_sender env)).
Qed.

Lemma Inv_updateReputationProfile subj s u s' :
  updateReputationProfile subj s = Ok (u, s') → Inv s → Inv s'.
Proof.
  rewrite updateReputationProfile_eq.
  destruct (isInitialized (profileAt s subj)) eqn:Hinit; [|discriminate].
  intros [= <- <-] [Ha Hb Hc Hd]. split.
  - intros a. rewrite profileAt_write_profile.
    case_decide; [subst a|apply Ha].
    cbn. split; [intros _|done]. by apply Ha.
  - apply Hb.
  - apply Hc.
  - intros a. rewrite profileAt_write_profile.
    case_decide; [apply spec_totalScore_wf|apply Hd].
Qed.

Lemma Inv_new_proof s rp :
  Inv s →
  Inv (set_decryptedProofs
         (<[vcCount s + 1 := mkDecryptedProof 0 0 false]> (decryptedProofs s))
         (set_reputationProofs
            (<[vcCount s + 1 := rp]> (reputationProofs s))
            (set_vcCount (vcCount s + 1) s))).
Proof.
  intros [Ha Hb Hc Hd]. split; [apply Ha| |apply Hc|apply Hd].
  intros p. unfold decryptedAt, proofAt in *. cbn.
  rewrite !default_lookup_insert. case_decide; [discriminate|apply Hb].
Qed.

Lemma Inv_generateReputationProof subj t s proofId s' :
  generateReputationProof subj t s = Ok (proofId, s') → Inv s → Inv s'.
Proof.
  rewrite generateReputationProof_eq.
  destruct (isInitialized (profileAt s subj)); [|discriminate].
  destruct (vcCount s <? MAX_UINT256); [|discriminate].
  cbn zeta. intros [= <- <-]. apply Inv_new_proof.
Qed.

Lemma Inv_generateCompositeProof subj reqs s proofId s' :
  generateCompositeProof subj reqs s = Ok (proofId, s') → Inv s → Inv s'.
Proof.
  rewrite generateCompositeProof_eq.
  destruct (isInitialized (profileAt s subj)); [|discriminate].
  destruct (vcCount s <? MAX_UINT256); [|discriminate].
  cbn zeta. intros [= <- <-]. apply Inv_new_proof.
Qed.

Lemma Inv_generateTimeBoundProof subj t vp s proofId s' :
  generateTimeBoundProof subj t vp s = Ok (proofId, s') → Inv s → Inv s'.
Proof.
  rewrite generateTimeBoundProof_eq, generateReputationProof_eq.
  destruct (isInitialized (profileAt s subj)); [|discriminate].
  destruct (vcCount s <? MAX_UINT256); [|discriminate].
  cbn zeta. intros [= <- <-] [Ha Hb Hc Hd].
  split; [apply Ha| |apply Hc|apply Hd].
  intros p. rewrite proofAt_write_proof.
  unfold decryptedAt, proofAt in *. cbn.
  rewrite !default_lookup_insert. case_decide; [discriminate|apply Hb].
Qed.

Lemma Inv_requestProofDecryption env proofId s u s' :
  requestProofDecryption env proofId s = Ok (u, s') → Inv s → Inv s'.
Proof.
  rewrite requestProofDecryption_eq.
  destruct (isValid (proofAt s proofId)); [|discriminate].
  destruct (isRevealed (decryptedAt s proofId)); [discriminate|].
  intros [= <- <-]. by apply Inv_frame.
Qed.

Lemma Inv_decryptReputationProof env requestId cleartexts proof s u s' :
  decryptReputationProof env requestId cleartexts proof s = Ok (u, s') →
  Inv s → Inv s'.
Proof.
  rewrite decryptReputationProof_guards. cbn zeta.
  destruct (proofIdOf s requestId =? 0) eqn:Hz; [discriminate|].
  destruct (isValid (proofAt s (proofIdOf s requestId))) eqn:Hv;
    [|discriminate].
  destruct (isRevealed (decryptedAt s (proofIdOf s requestId)));
    [discriminate|].
  destruct (signatures_valid env); [|discriminate]. cbn [negb].
  destruct cleartexts as [|a [|b cts]]; try discriminate.
  destruct (in_uint32 a && in_uint32 b); [|discriminate].
  intros [= <- <-] [Ha Hb Hc Hd].
  split; [apply Ha| |apply Hc|apply Hd].
  intros p. rewrite decryptedAt_write_decrypted.
  case_decide as Hp; [subst p|apply Hb].
  intros _. split; [|exact Hv]. by apply N.eqb_neq.
Qed.

Lemma Inv_revokeCredential env vcId s u s' :
  revokeCredential env vcId s = Ok (u, s') → Inv s → Inv s'.
Proof.
  rewrite revokeCredential_eq.
  destruct (issuer (vcAt s vcId) =? msg_sender env); [|discriminate].
  intros [= <- <-] [Ha Hb Hc Hd].
  split; [apply Ha|apply Hb| |apply Hd].
  intros i. rewrite vcAt_write_vc.
  case_decide as Hi; [subst i|apply Hc].
  intros Hnz%with_isActive_false_zero. by apply Hc in Hnz.
Qed.

Lemma Inv_authorizeIssuer env a s u s' :
  authorizeIssuer env a s = Ok (u, s') → Inv s → Inv s'.
Proof.
  rewrite authorizeIssuer_eq.
  destruct (msg_sender env =? systemAdmin s); [|discriminate].
  intros [= <- <-]. by apply Inv_frame.
Qed.

Lemma Inv_exec env c s u s' : exec env c s = Ok (u, s') → Inv s → Inv s'.
Proof.
  destruct c; cbn [exec].
  - apply Inv_authorizeIssuer.
  - apply Inv_issueEncryptedVC.
  - apply Inv_updateReputationProfile.
  - unfold discard. unfold_M.
    destruct (generateReputationProof _ _ s) as [[a s1]|e] eqn:E;
      [|discriminate].
    intros [= <- <-]. by eapply Inv_generateReputationProof.
  - apply Inv_requestProofDecryption.
  - apply Inv_decryptReputationProof.
  - intros H%onlyIssuer_then. by eapply Inv_issueEncryptedVC.
  - apply Inv_revokeCredential.
  - intros H%onlyIssuer_then. by eapply Inv_issueEncryptedVC.
  - unfold discard. unfold_M.
    destruct (generateTimeBoundProof _ _ _ s) as [[a s1]|e] eqn:E;
      [|discriminate].
    intros [= <- <-]. by eapply Inv_generateTimeBoundProof.
  - apply Inv_issueEncryptedVC.
  - unfold discard. unfold_M.
    destruct (generateCompositeProof _ _ s) as [[a s1]|e] eqn:E;
      [|discriminate].
    intros [= <- <-]. by eapply Inv_generateCompositeProof.
  - unfold protectUserPrivacy, onlyAdmin. unfold_M.
    destruct (msg_sender env =? systemAdmin s); [|discriminate].
    by intros [= <- <-].
  - intros H%onlyIssuer_then. by eapply Inv_issueEncryptedVC.
  - intros H%onlyIssuer_then. by eapply Inv_issueEncryptedVC.
Qed.

Lemma Inv_step s tx : Inv s → Inv (step s tx).
Proof.
  intros HI. unfold step, run.
  destruct (exec (fst tx) (snd tx) s) as [[u s']|e] eqn:E; cbn; [|done].
  by eapply Inv_exec.
Qed.

Lemma reachable_Inv s : reachable s → Inv s.
Proof.
  induction 1 as [env|s tx _ IH]; [apply Inv_deploy|by apply Inv_step].
Qed.

Lemma reachable_run_trace txs s : reachable s → reachable (run_trace txs s).
Proof.
  revert s. induction txs as [|tx txs IH]; intros s Hs; [done|].
  cbn. apply IH. by constructor.
Qed.

(** ** What the calls leave alone *)

Lemma run_fst_cases {A : Type} (m : M A) (s : State) (P : State → Prop) :
  P s → (∀ a s', m s = Ok (a, s') → P s') → P (fst (run m s)).
Proof.
  intros Hs Hok. unfold run. destruct (m s) as [[a s']|e] eqn:E; cbn; eauto.
Qed.

(** Calls that neither issue nor revoke leave the credential store as it
    is, and never reset a profile's initialized flag. *)
Lemma step_keeps_credentials s tx :
  is_credential_change (snd tx) = false →
  verifiableCredentials (step s tx) = verifiableCredentials s ∧
  userCredentials (step s tx) = userCredentials s ∧
  ∀ a, isInitialized (profileAt (step s tx) a) = isInitialized (profileAt s a).
Proof.
  destruct tx as [env c]. unfold step. cbn [fst snd].
  destruct c; cbn [is_credential_change exec]; try discriminate; intros _;
    apply run_fst_cases; try done; intros u s'.
  - rewrite authorizeIssuer_eq.
    destruct (msg_sender env =? systemAdmin s); [|discriminate].
    by intros [= <- <-].
  - rewrite updateReputationProfile_eq.
    destruct (isInitialized (profileAt s subject0)) eqn:Hinit; [|discriminate].
    intros [= <- <-]. repeat split. intros a.
    rewrite profileAt_write_profile. case_decide; [by subst|done].
  - unfold discard. unfold_M. rewrite generateReputationProof_eq.
    destruct (isInitialized (profileAt s subject0)); [|discriminate].
    destruct (vcCount s <? MAX_UINT256); [|discriminate].
    by intros [= <- <-].
  - rewrite requestProofDecryption_eq.
    destruct (isValid (proofAt s proofId)); [|discriminate].
    destruct (isRevealed (decryptedAt s proofId)); [discriminate|].
    by intros [= <- <-].
  - rewrite decryptReputationProof_guards. cbn zeta.
    repeat case_match; try discriminate. by intros [= <- <-].
  - unfold discard. unfold_M.
    rewrite generateTimeBoundProof_eq, generateReputationProof_eq.
    destruct (isInitialized (profileAt s subject0)); [|discriminate].
    destruct (vcCount s <? MAX_UINT256); [|discriminate].
    by intros [= <- <-].
  - unfold discard. unfold_M. rewrite generateCompositeProof_eq.
    destruct (isInitialized (profileAt s subject0)); [|discriminate].
    destruct (vcCount s <? MAX_UINT256); [|discriminate].
    by intros [= <- <-].
  - unfold protectUserPrivacy, onlyAdmin. unfold_M.
    destruct (msg_sender env =? systemAdmin s); [|discriminate].
    by intros [= <- <-].
Qed.

Lemma run_trace_cons tx txs s :
  run_trace (tx :: txs) s = run_trace txs (step s tx).
Proof. reflexivity. Qed.

Lemma run_trace_keeps_credentials txs s :
  Forall (λ tx : Env * Call, is_credential_change (snd tx) = false) txs →
  verifiableCredentials (run_trace txs s) = verifiableCredentials s ∧
  userCredentials (run_trace txs s) = userCredentials s ∧
  ∀ a, isInitialized (profileAt (run_trace txs s) a)
       = isInitialized (profileAt s a).
Proof.
  intros H. revert s. induction H as [|tx txs Htx _ IH]; intros s; [done|].
  rewrite run_trace_cons. destruct (IH (step s tx)) as (Hv & Hu & Hi).
  destruct (step_keeps_credentials s tx Htx) as (Hv' & Hu' & Hi').
  rewrite Hv, Hu, Hv', Hu'. repeat split. intros a. by rewrite Hi, Hi'.
Qed.

Lemma active_credentials_ext s s' subj :
  verifiableCredentials s' = verifiableCredentials s →
  userCredentials s' = userCredentials s →
  active_credentials s' subj = active_credentials s subj.
Proof.
  intros Hv Hu. unfold active_credentials, credentialsOf. rewrite Hu.
  f_equal. apply map_ext. intros i. unfold vcAt. by rewrite Hv.
Qed.



(** ** Credential ids *)

Lemma step_vcCount_mono s tx : vcCount s ≤ vcCount (step s tx).
Proof.
  destruct tx as [env c]. unfold step. cbn [fst snd].
  assert (Hissue : ∀ subj ty sc w u s',
            issueEncryptedVC env subj ty sc w s = Ok (u, s') →
            vcCount s ≤ vcCount s').
  { intros subj ty sc w u s' (_ & -> & _)%issueEncryptedVC_reads. lia. }
  destruct c; cbn [exec]; apply run_fst_cases; try done; intros u s'.
  - rewrite authorizeIssuer_eq.
    destruct (msg_sender env =? systemAdmin s); [|discriminate].
    by intros [= <- <-].
  - apply Hissue.
  - rewrite updateReputationProfile_eq.
    destruct (isInitialized (profileAt s subject0)); [|discriminate].
    by intros [= <- <-].
  - unfold discard. unfold_M. rewrite generateReputationProof_eq.
    destruct (isInitialized (profileAt s subject0)); [|discriminate].
    destruct (vcCount s <? MAX_UINT256); [|discriminate].
    intros [= <- <-]. cbn. lia.
  - rewrite requestProofDecryption_eq.
    destruct (isValid (proofAt s proofId)); [|discriminate].
    destruct (isRevealed (decryptedAt s proofId)); [discriminate|].
    by intros [= <- <-].
  - by intros (a & b & _ & _ & _ & ->)%decryptReputationProof_ok.
  - intros H%onlyIssuer_then. by eapply Hissue.
  - rewrite revokeCredential_eq.
    destruct (issuer (vcAt s vcId) =? msg_sender env); [|discriminate].
    by intros [= <- <-].
  - intros H%onlyIssuer_then. by eapply Hissue.
  - unfold discard. unfold_M.
    rewrite generateTimeBoundProof_eq, generateReputationProof_eq.
    destruct (isInitialized (profileAt s subject0)); [|discriminate].
    destruct (vcCount s <? MAX_UINT256); [|discriminate].
    intros [= <- <-]. cbn. lia.
  - apply Hissue.
  - unfold discard. unfold_M. rewrite generateCompositeProof_eq.
    destruct (isInitialized (profileAt s subject0)); [|discriminate].
    destruct (vcCount s <? MAX_UINT256); [|discriminate].
    intros [= <- <-]. cbn. lia.
  - unfold protectUserPrivacy, onlyAdmin. unfold_M.
    destruct (msg_sender env =? systemAdmin s); [|discriminate].
    by intros [= <- <-].
  - intros H%onlyIssuer_then. by eapply Hissue.
  - intros H%onlyIssuer_then. by eapply Hissue.
Qed.

(** What one transaction does to the credential lists: an entry of the
    new lists is an entry of the old ones, or the id just assigned. *)
Lemma step_credentials s tx a i :
  i ∈ credentialsOf (step s tx) a →
  i ∈ credentialsOf s a ∨ (i = vcCount s + 1 ∧ vcCount (step s tx) = i).
Proof.
  destruct (is_credential_change (snd tx)) eqn:Hc.
  - destruct tx as [env c]. unfold step. cbn [fst snd].
    assert (Hissue : ∀ subj ty sc w u s',
              issueEncryptedVC env subj ty sc w s = Ok (u, s') →
              i ∈ credentialsOf s' a →
              i ∈ credentialsOf s a ∨ (i = vcCount s + 1 ∧ vcCount s' = i)).
    { intros subj ty sc w u s' (_ & Hn & _ & Hl & _)%issueEncryptedVC_reads.
      rewrite Hl, Hn. case_decide; [subst a|by left].
      intros [H|H%list_elem_of_singleton]%elem_of_app; [by left|by right]. }
    destruct c; cbn [is_credential_change] in Hc; try discriminate;
      cbn [exec]; apply run_fst_cases; try (by left); intros u s'.
    + apply Hissue.
    + intros H%onlyIssuer_then. by eapply Hissue.
    + rewrite revokeCredential_eq.
      destruct (issuer (vcAt s vcId) =? msg_sender env); [|discriminate].
      intros [= <- <-]. by left.
    + intros H%onlyIssuer_then. by eapply Hissue.
    + apply Hissue.
    + intros H%onlyIssuer_then. by eapply Hissue.
    + intros H%onlyIssuer_then. by eapply Hissue.
  - destruct (step_keeps_credentials s tx Hc) as (_ & Hu & _).
    unfold credentialsOf. rewrite Hu. by left.
Qed.

(** Every recorded credential id lies between 1 and the counter, so an id
    beyond the counter, and the id 0, were never issued. *)
Lemma reachable_ids_bounded s a i :
  reachable s → i ∈ credentialsOf s a → 1 ≤ i ≤ vcCount s.
Proof.
  intros Hr. revert a i. induction Hr as [env|s tx _ IH]; intros a i.
  - unfold credentialsOf. cbn. rewrite lookup_empty. cbn.
    by intros H%elem_of_nil.
  - intros [H|[-> H]]%step_credentials.
    + pose proof (step_vcCount_mono s tx). specialize (IH a i H). lia.
    + rewrite H. lia.
Qed.

Lemma beyond_counter_never_issued s vcId :
  reachable s → vcCount s < vcId ∨ vcId = 0 → never_issued s vcId.
Proof.
  intros Hr Hid subj Hin.
  pose proof (reachable_ids_bounded s subj vcId Hr Hin). lia.
Qed.

(** Nothing is ever removed from a credential list. *)
Lemma step_credentials_grow s tx a i :
  i ∈ credentialsOf s a → i ∈ credentialsOf (step s tx) a.
Proof.
  destruct (is_credential_change (snd tx)) eqn:Hc.
  - destruct tx as [env c]. unfold step. cbn [fst snd]. intros Hin.
    assert (Hissue : ∀ subj ty sc w u s',
              issueEncryptedVC env subj ty sc w s = Ok (u, s') →
              i ∈ credentialsOf s' a).
    { intros subj ty sc w u s' (_ & _ & _ & Hl & _)%issueEncryptedVC_reads.
      rewrite Hl. case_decide; [subst a|done]. apply elem_of_app. by left. }
    destruct c; cbn [is_credential_change] in Hc; try discriminate;
      cbn [exec]; apply run_fst_cases; try done; intros u s'.
    + apply Hissue.
    + intros H%onlyIssuer_then. by eapply Hissue.
    + rewrite revokeCredential_eq.
      destruct (issuer (vcAt s vcId) =? msg_sender env); [|discriminate].
      by intros [= <- <-].
    + intros H%onlyIssuer_then. by eapply Hissue.
    + apply Hissue.
    + intros H%onlyIssuer_then. by eapply Hissue.
    + intros H%onlyIssuer_then. by eapply Hissue.
  - destruct (step_keeps_credentials s tx Hc) as (_ & Hu & _).
    unfold credentialsOf. by rewrite Hu.
Qed.

(** ** The worked example of the specification *)

(** One credential of score 80 and weight 1 gives total score 80 and count
    1; a second one of score 60 gives 70 and 2; revoking the second one and
    recomputing gives 80 and 1 again. *)
Lemma worked_example :
  profileAt Example.st_one Example.S
    = mkReputationProfile (Enc 80) (Enc 8) (Enc 1) true ∧
  profileAt Example.st_two Example.S
    = mkReputationProfile (Enc 70) (Enc 7) (Enc 2) true ∧
  profileAt Example.st_revoked Example.S
    = mkReputationProfile (Enc 80) (Enc 8) (Enc 1) true.
Proof. by vm_compute. Qed.

(** * The claims *)

(** ** Recomputation *)



(** C3: recomputing an initialized subject twice gives the same three
    profile fields both times.  With nothing in between the whole storage
    is the same after the second call as after the first; with any calls
    in between that neither issue nor revoke a credential, the second
    call still succeeds and stores the very profile the first one
    stored. *)
Theorem recompute_idempotent (s : State) (subj : address)
    (txs : list (Env * Call)) :
  isInitialized (profileAt s subj) = true →
  Forall (λ tx : Env * Call, is_credential_change (snd tx) = false) txs →
  ∃ s1,
    run (updateReputationProfile subj) s = (s1, Ok tt) ∧
    run (updateReputationProfile subj) s1 = (s1, Ok tt) ∧
    ∃ s3,
      run (updateReputationProfile subj) (run_trace txs s1) = (s3, Ok tt) ∧
      profileAt s3 subj = profileAt s1 subj.
Proof.
  intros Hinit Htxs.
  set (s1 := write_profile subj (λ _, aggregate (active_credentials s subj)) s).
  assert (Hinit1 : isInitialized (profileAt s1 subj) = true).
  { unfold s1. by rewrite profileAt_write_profile, decide_True. }
  assert (Hact1 : active_credentials s1 subj = active_credentials s subj).
  { by apply active_credentials_ext. }
  exists s1. split; [by apply run_updateReputationProfile_ok|].
  split.
  - rewrite run_updateReputationProfile_ok by done. f_equal.
    rewrite Hact1. unfold s1. by rewrite write_profile_write_profile.
  - destruct (run_trace_keeps_credentials txs s1 Htxs) as (Hv & Hu & Hi).
    eexists. split.
    + apply run_updateReputationProfile_ok. by rewrite Hi.
    + rewrite profileAt_write_profile, decide_True by done.
      rewrite (active_credentials_ext s1 _ subj Hv Hu), Hact1.
      unfold s1. by rewrite profileAt_write_profile, decide_True.
Qed.

Lemma recompute_idempotent_witness :
  ∃ s1,
    run (updateReputationProfile Example.S) Example.st_two = (s1, Ok tt) ∧
    run (updateReputationProfile Example.S) s1 = (s1, Ok tt).
Proof.
  destruct (recompute_idempotent Example.st_two Example.S
              [(Example.as_ Example.S,
                GenerateReputationProof Example.S (Enc 50));
               (Example.as_ Example.S, UpdateReputationProfile Example.S)])
    as (s1 & H1 & H2 & _).
  - by vm_compute.
  - repeat constructor.
  - exists s1. by split.
Defined.

(** ** Revocation *)

Lemma active_after_revoke s c ids :
  List.filter isActive (map (vcAt (write_vc c (with_isActive false) s)) ids) =
  List.filter isActive
    (map (vcAt s) (List.filter (λ i, negb (i =? c)) ids)).
Proof.
  induction ids as [|i ids IH]; [reflexivity|].
  cbn [map List.filter]. rewrite vcAt_write_vc.
  destruct (i =? c) eqn:Hic; cbn [negb].
  - apply N.eqb_eq in Hic. subst i. rewrite decide_True by done.
    cbn [with_isActive isActive]. exact IH.
  - apply N.eqb_neq in Hic. rewrite decide_False by congruence.
    cbn [map List.filter]. by rewrite IH.
Qed.

(** C4: for a credential c in the list of subject S, revoked by its
    issuer in a reachable state: the revocation succeeds, the following
    recomputation of S succeeds, and the stored profile is the aggregate
    over the active credentials of S other than c (so c enters neither the
    score sum, nor the weight sum, nor the count); the read accessor still
    returns every field of c as it was, with the active flag false. *)
Theorem revoke_then_recompute (s : State) (env : Env) (c : N)
    (subj : address) :
  reachable s →
  c ∈ credentialsOf s subj →
  issuer (vcAt s c) = msg_sender env →
  ∃ s1 s2,
    run (revokeCredential env c) s = (s1, Ok tt) ∧
    run (updateReputationProfile subj) s1 = (s2, Ok tt) ∧
    active_credentials s2 subj = active_credentials_except s subj c ∧
    profileAt s2 subj = aggregate (active_credentials_except s subj c) ∧
    run (getEncryptedVC c) s2 =
      (s2, Ok (issuer (vcAt s c), subject (vcAt s c),
               encryptedType (vcAt s c), encryptedScore (vcAt s c),
               encryptedWeight (vcAt s c), timestamp (vcAt s c), false)).
Proof.
  intros Hr Hc Hiss.
  pose proof (reachable_Inv s Hr) as [Ha _ _ _].
  set (s1 := write_vc c (with_isActive false) s).
  assert (Hact : active_credentials s1 subj
                 = active_credentials_except s subj c).
  { unfold active_credentials, active_credentials_except.
    change (credentialsOf s1 subj) with (credentialsOf s subj).
    apply active_after_revoke. }
  assert (Hinit : isInitialized (profileAt s1 subj) = true).
  { change (profileAt s1 subj) with (profileAt s subj). apply Ha.
    intros E. rewrite E in Hc. by apply elem_of_nil in Hc. }
  exists s1, (write_profile subj (λ _, aggregate (active_credentials s1 subj)) s1).
  split; [|split; [|split; [|split]]].
  - unfold run. rewrite revokeCredential_eq, Hiss, N.eqb_refl. done.
  - by apply run_updateReputationProfile_ok.
  - rewrite <- Hact. by apply active_credentials_ext.
  - rewrite profileAt_write_profile, decide_True by done. by rewrite Hact.
  - unfold run, getEncryptedVC. unfold_M.
    change (vcAt (write_profile subj _ s1) c) with (vcAt s1 c).
    unfold s1. rewrite vcAt_write_vc, decide_True by done. done.
Qed.

Lemma revoke_then_recompute_witness :
  ∃ s1 s2,
    run (revokeCredential (Example.as_ Example.issuerA) 2) Example.st_two
      = (s1, Ok tt) ∧
    run (updateReputationProfile Example.S) s1 = (s2, Ok tt) ∧
    profileAt s2 Example.S
      = aggregate (active_credentials_except Example.st_two Example.S 2).
Proof.
  destruct (revoke_then_recompute Example.st_two
              (Example.as_ Example.issuerA) 2 Example.S)
    as (s1 & s2 & H1 & H2 & _ & H3 & _).
  - apply reachable_run_trace. constructor.
  - vm_compute. apply list_elem_of_In. right. by left.
  - by vm_compute.
  - exists s1, s2. by repeat split.
Defined.

(** ** The proof ledger and the reveal protocol *)

(** C5: in a reachable state, when the proof a request id maps to is
    already revealed, a callback delivery for that request id reverts with
    "Already decrypted" (AlreadyRevealed) whatever it carries, and the
    storage, the revealed minScore and proofValue included, is as before.
    In particular a delivery right after a successful one is rejected. *)
Theorem duplicate_callback_rejected (s : State) (env : Env) (requestId : N)
    (cleartexts proof : list Z) :
  reachable s →
  (isRevealed (decryptedAt s (proofIdOf s requestId)) = true →
   run (decryptReputationProof env requestId cleartexts proof) s
     = (s, Revert AlreadyDecrypted) ∧
   spec_error AlreadyDecrypted = Some AlreadyRevealed) ∧
  (∀ env0 cleartexts0 proof0 s',
     run (decryptReputationProof env0 requestId cleartexts0 proof0) s
       = (s', Ok tt) →
     isRevealed (decryptedAt s' (proofIdOf s' requestId)) = true ∧
     run (decryptReputationProof env requestId cleartexts proof) s'
       = (s', Revert AlreadyDecrypted) ∧
     decryptedAt
       (fst (run (decryptReputationProof env requestId cleartexts proof) s'))
       (proofIdOf s' requestId)
       = decryptedAt s' (proofIdOf s' requestId)).
Proof.
  intros Hr.
  assert (Hdup : ∀ st, Inv st →
            isRevealed (decryptedAt st (proofIdOf st requestId)) = true →
            run (decryptReputationProof env requestId cleartexts proof) st
              = (st, Revert AlreadyDecrypted)).
  { intros st [_ Hb _ _] Hrev. destruct (Hb _ Hrev) as [Hnz Hvalid].
    unfold run. rewrite decryptReputationProof_guards. cbn zeta.
    apply N.eqb_neq in Hnz. by rewrite Hnz, Hvalid, Hrev. }
  split.
  - intros Hrev. split; [|done]. apply Hdup; [by apply reachable_Inv|done].
  - intros env0 cleartexts0 proof0 s' Hrun.
    assert (Hs' : s' = step s (env0, DecryptReputationProof requestId
                                       cleartexts0 proof0)).
    { unfold step. cbn [fst snd exec]. by rewrite Hrun. }
    assert (Hrev : isRevealed (decryptedAt s' (proofIdOf s' requestId)) = true).
    { apply run_ok_inv, decryptReputationProof_ok in Hrun
        as (a & b & _ & _ & _ & ->).
      change (proofIdOf (write_decrypted _ _ s) requestId)
        with (proofIdOf s requestId).
      by rewrite decryptedAt_write_decrypted, decide_True. }
    assert (Hrej : run (decryptReputationProof env requestId cleartexts
                          proof) s' = (s', Revert AlreadyDecrypted)).
    { apply Hdup; [|done]. apply reachable_Inv. rewrite Hs'. by constructor. }
    by rewrite Hrej.
Qed.

Lemma duplicate_callback_rejected_witness :
  isRevealed (decryptedAt Example.st_revealed
                (proofIdOf Example.st_revealed 77)) = true ∧
  run (decryptReputationProof (Example.as_ Example.relayer) 77 [0%Z; 0%Z] [])
      Example.st_revealed
    = (Example.st_revealed, Revert AlreadyDecrypted).
Proof.
  assert (Hrev : isRevealed (decryptedAt Example.st_revealed
                   (proofIdOf Example.st_revealed 77)) = true)
    by (by vm_compute).
  split; [exact Hrev|].
  apply (duplicate_callback_rejected Example.st_revealed
           (Example.as_ Example.relayer) 77 [0%Z; 0%Z] []).
  - apply reachable_run_trace. constructor.
  - exact Hrev.
Defined.

(** C9: for an initialized subject, [generateTimeBoundProof] returns the
    next id; the proof stored under that id is not valid, whatever the
    threshold and the validity period, and a reveal request for it reverts
    with "Invalid proof" (InvalidProof). *)
Theorem time_bound_proof_unusable (s : State) (subj : address)
    (t : euint32) (validityPeriod : N) :
  isInitialized (profileAt s subj) = true →
  vcCount s < MAX_UINT256 →
  ∃ proofId s',
    run (generateTimeBoundProof subj t validityPeriod) s = (s', Ok proofId) ∧
    proofId = vcCount s + 1 ∧
    isValid (proofAt s' proofId) = false ∧
    ∀ env, run (requestProofDecryption env proofId) s'
           = (s', Revert InvalidProof) ∧
           spec_error InvalidProof = Some SpecInvalidProof.
Proof.
  intros Hinit Hcount. apply N.ltb_lt in Hcount.
  eexists _, _. split.
  { unfold run.
    rewrite generateTimeBoundProof_eq, generateReputationProof_eq.
    rewrite Hinit, Hcount. cbn zeta. reflexivity. }
  split; [done|].
  assert (Hv : ∀ s0,
            isValid (proofAt (write_proof (vcCount s + 1) (with_isValid false)
                                s0) (vcCount s + 1)) = false).
  { intros s0. by rewrite proofAt_write_proof, decide_True. }
  split; [by apply Hv|].
  intros env. split; [|done].
  unfold run. rewrite requestProofDecryption_eq. by rewrite Hv.
Qed.

Lemma time_bound_proof_unusable_witness :
  ∃ proofId s',
    run (generateTimeBoundProof Example.S (Enc 50) 3600) Example.st_one
      = (s', Ok proofId) ∧
    isValid (proofAt s' proofId) = false ∧
    run (requestProofDecryption Example.requesting proofId) s'
      = (s', Revert InvalidProof).
Proof.
  destruct (time_bound_proof_unusable Example.st_one Example.S (Enc 50) 3600)
    as (proofId & s' & H1 & _ & H2 & H3).
  - by vm_compute.
  - by vm_compute.
  - exists proofId, s'. repeat split; [exact H1|exact H2|].
    apply (H3 Example.requesting).
Defined.

(** C10: [generateTimeBoundProof] never reads its validity period: from
    the same storage, for the same subject and threshold, any two validity
    periods give the same outcome, the same proof id and the same
    storage. *)
Theorem time_bound_proof_ignores_period (s : State) (subj : address)
    (t : euint32) (validityPeriod1 validityPeriod2 : N) :
  run (generateTimeBoundProof subj t validityPeriod1) s =
  run (generateTimeBoundProof subj t validityPeriod2) s.
Proof. unfold run. by rewrite !generateTimeBoundProof_eq. Qed.






(** ** Unknown ids and the derived metrics *)

Lemma never_issued_zero s vcId :
  Inv s → never_issued s vcId → vcAt s vcId = zeroVC.
Proof.
  intros [_ _ Hc _] Hnever.
  destruct (decide (vcAt s vcId = zeroVC)) as [|Hnz]; [done|].
  exfalso. by apply (Hnever (subject (vcAt s vcId))), Hc.
Qed.

Lemma never_issued_deployed env vcId : never_issued (constructor env) vcId.
Proof.
  intros subj. unfold credentialsOf. cbn. rewrite lookup_empty. cbn.
  apply not_elem_of_nil.
Qed.

(** C6, as the claim states it, fails twice: on a subject that never had a
    credential [calculateConsistency] returns 100 and does not revert; and
    on a subject with exactly one active credential next to a revoked one
    (scores 80 and 60, recomputed average 80) it returns 80, not 100. *)
Lemma consistency_claim_counterexample :
  (credentialsOf Example.deployed Example.S = [] ∧
   isInitialized (profileAt Example.deployed Example.S) = false ∧
   run (calculateConsistency Example.S) Example.deployed
     = (Example.deployed, Ok (Enc 100)) ∧
   snd (run (calculateConsistency Example.S) Example.deployed)
     ≠ Revert ProfileNotInitialized) ∧
  (reachable Example.st_revoked ∧
   map vc_id (active_credentials Example.st_revoked Example.S) = [1] ∧
   run (calculateConsistency Example.S) Example.st_revoked
     = (Example.st_revoked, Ok (Enc 80)) ∧
   snd (run (calculateConsistency Example.S) Example.st_revoked)
     ≠ Ok (Enc 100)).
Proof.
  split.
  - repeat split; try (by vm_compute).
  - split; [apply reachable_run_trace; constructor|].
    repeat split; try (by vm_compute).
Qed.

(** C6, amended: [calculateConsistency] never reverts, and on a subject
    whose credential list has fewer than two entries (none, or one, active
    or revoked) it returns the maximum value 100. *)
Theorem consistency_of_few_credentials (s : State) (subj : address) :
  (∃ v, run (calculateConsistency subj) s = (s, Ok v)) ∧
  ((length (credentialsOf s subj) < 2)%nat →
   run (calculateConsistency subj) s = (s, Ok (Enc 100))).
Proof.
  unfold run, calculateConsistency. unfold_M.
  destruct (length (credentialsOf s subj) <? 2)%nat eqn:Hlen.
  - split; [by eexists|done].
  - split; [by eexists|]. intros H. apply Nat.ltb_lt in H. congruence.
Qed.

Lemma consistency_of_few_credentials_witness :
  run (calculateConsistency Example.S) Example.st_one
    = (Example.st_one, Ok (Enc 100)).
Proof.
  apply (consistency_of_few_credentials Example.st_one Example.S).
  vm_compute. lia.
Defined.

(** C7, as the claim states it, fails on an id that was never issued: the
    revocation reverts with "Not issuer", which is Unauthorized, and no
    call of the contract reverts with NotFound. *)
Lemma revoke_unknown_counterexample :
  never_issued Example.deployed 9 ∧
  run (revokeCredential (Example.as_ Example.issuerA) 9) Example.deployed
    = (Example.deployed, Revert NotIssuer) ∧
  spec_error NotIssuer = Some Unauthorized ∧
  spec_error NotIssuer ≠ Some NotFound ∧
  (∀ e : Error, spec_error e ≠ Some NotFound).
Proof.
  split; [apply never_issued_deployed|].
  split; [by vm_compute|].
  split; [done|]. split; [done|]. by intros [].
Qed.

(** C7, amended: [revokeCredential] reverts with "Not issuer"
    (Unauthorized) whenever the caller is not the issuer stored under the
    id; an id that was never issued stores the zero address as issuer, so
    in a reachable state every caller but the zero address is rejected the
    same way; when the caller is the stored issuer the call succeeds, the
    credential's active flag is false afterwards and its other fields and
    every other credential are as before, and revoking once more succeeds
    again and changes nothing. *)
Theorem revokeCredential_outcomes (s : State) (env : Env) (vcId : N) :
  (issuer (vcAt s vcId) ≠ msg_sender env →
   run (revokeCredential env vcId) s = (s, Revert NotIssuer) ∧
   spec_error NotIssuer = Some Unauthorized) ∧
  (reachable s → never_issued s vcId → msg_sender env ≠ 0 →
   run (revokeCredential env vcId) s = (s, Revert NotIssuer)) ∧
  (issuer (vcAt s vcId) = msg_sender env →
   ∃ s', run (revokeCredential env vcId) s = (s', Ok tt) ∧
     vcAt s' vcId = with_isActive false (vcAt s vcId) ∧
     isActive (vcAt s' vcId) = false ∧
     (∀ i, i ≠ vcId → vcAt s' i = vcAt s i) ∧
     run (revokeCredential env vcId) s' = (s', Ok tt)).
Proof.
  assert (Hrej : issuer (vcAt s vcId) ≠ msg_sender env →
                 run (revokeCredential env vcId) s = (s, Revert NotIssuer)).
  { intros Hne. unfold run. rewrite revokeCredential_eq.
    apply N.eqb_neq in Hne. by rewrite Hne. }
  split; [|split].
  - intros Hne. by split; [apply Hrej|].
  - intros Hr Hnever Hsender. apply Hrej.
    rewrite (never_issued_zero s vcId (reachable_Inv s Hr) Hnever). cbn.
    congruence.
  - intros Heq. exists (write_vc vcId (with_isActive false) s).
    assert (Hvc : vcAt (write_vc vcId (with_isActive false) s) vcId
                  = with_isActive false (vcAt s vcId)).
    { by rewrite vcAt_write_vc, decide_True. }
    split; [|split; [|split; [|split]]].
    + unfold run. by rewrite revokeCredential_eq, Heq, N.eqb_refl.
    + exact Hvc.
    + by rewrite Hvc.
    + intros i Hi. by rewrite vcAt_write_vc, decide_False.
    + unfold run. rewrite revokeCredential_eq, Hvc. cbn [with_isActive issuer].
      rewrite Heq, N.eqb_refl. f_equal.
      by rewrite write_vc_write_vc.
Qed.

Lemma revokeCredential_outcomes_witness :
  run (revokeCredential (Example.as_ Example.relayer) 1) Example.st_two
    = (Example.st_two, Revert NotIssuer) ∧
  run (revokeCredential (Example.as_ Example.relayer) 9) Example.st_two
    = (Example.st_two, Revert NotIssuer) ∧
  ∃ s', run (revokeCredential (Example.as_ Example.issuerA) 2) Example.st_two
          = (s', Ok tt) ∧
        run (revokeCredential (Example.as_ Example.issuerA) 2) s'
          = (s', Ok tt).
Proof.
  split; [|split].
  - destruct (revokeCredential_outcomes Example.st_two
                (Example.as_ Example.relayer) 1) as (H & _ & _).
    apply H. vm_compute. discriminate.
  - destruct (revokeCredential_outcomes Example.st_two
                (Example.as_ Example.relayer) 9) as (_ & H & _).
    apply H.
    + apply reachable_run_trace. constructor.
    + apply beyond_counter_never_issued.
      * apply reachable_run_trace. constructor.
      * left. by vm_compute.
    + vm_compute. discriminate.
  - destruct (revokeCredential_outcomes Example.st_two
                (Example.as_ Example.issuerA) 2) as (_ & _ & H).
    destruct H as (s' & H1 & _ & _ & _ & H2); [by vm_compute|].
    exists s'. by split.
Defined.

(** C8, as the claim states it, fails: for an id that was never issued the
    read accessor does not revert, it returns the zero credential. *)
Lemma getEncryptedVC_unknown_counterexample :
  never_issued Example.deployed 9 ∧
  run (getEncryptedVC 9) Example.deployed
    = (Example.deployed, Ok (0, 0, Enc 0, Enc 0, Enc 0, 0, false)) ∧
  (∀ e : Error,
     snd (run (getEncryptedVC 9) Example.deployed) ≠ Revert e).
Proof.
  split; [apply never_issued_deployed|].
  split; [by vm_compute|]. intros e. by vm_compute.
Qed.

(** C8, amended: the read accessor never reverts; it returns the fields
    stored under the id, and in a reachable state these are, for an id
    that was never issued, the zero address as issuer and subject, zero
    type, score, weight and timestamp, and an active flag that is false. *)
Theorem getEncryptedVC_total (s : State) (vcId : N) :
  run (getEncryptedVC vcId) s =
    (s, Ok (issuer (vcAt s vcId), subject (vcAt s vcId),
            encryptedType (vcAt s vcId), encryptedScore (vcAt s vcId),
            encryptedWeight (vcAt s vcId), timestamp (vcAt s vcId),
            isActive (vcAt s vcId))) ∧
  (reachable s → never_issued s vcId →
   run (getEncryptedVC vcId) s
     = (s, Ok (0, 0, Enc 0, Enc 0, Enc 0, 0, false))).
Proof.
  split; [reflexivity|].
  intros Hr Hnever. unfold run, getEncryptedVC. unfold_M.
  by rewrite (never_issued_zero s vcId (reachable_Inv s Hr) Hnever).
Qed.

Lemma getEncryptedVC_total_witness :
  run (getEncryptedVC 9) Example.deployed
    = (Example.deployed, Ok (0, 0, Enc 0, Enc 0, Enc 0, 0, false)).
Proof.
  apply (getEncryptedVC_total Example.deployed 9).
  - constructor.
  - apply never_issued_deployed.
Defined.

(** * Beyond the claims *)

(** ** Every call has one of six effects *)

Lemma effect_refl s : effect s s.
Proof. by apply effect_none. Qed.

Lemma effect_of_issue env subj ty sc w s u s' :
  issueEncryptedVC env subj ty sc w s = Ok (u, s') → effect s s'.
Proof.
  intros (_ & Hn & Hvc & Hl & _ & Hp & Hd & Hq)%issueEncryptedVC_reads.
  apply (effect_issue s s'
           (mkEncryptedVC (vcCount s + 1) (msg_sender env) subj ty sc w
              (block_timestamp env) true));
    unfold same_proofs, same_revealed, same_router; try done.
  - intros a. rewrite Hl. cbn [subject]. case_decide; [by subst|done].
  - intros i. unfold proofAt. by rewrite Hp.
  - intros i. unfold decryptedAt. by rewrite Hd.
  - intros r. unfold proofIdOf. by rewrite Hq.
Qed.

Lemma effect_of_new_proof s rp :
  effect s
    (set_decryptedProofs
       (<[vcCount s + 1 := mkDecryptedProof 0 0 false]> (decryptedProofs s))
       (set_reputationProofs
          (<[vcCount s + 1 := rp]> (reputationProofs s))
          (set_vcCount (vcCount s + 1) s))).
Proof.
  apply (effect_proof _ _ rp); try done.
  - intros i. unfold proofAt. cbn. apply default_lookup_insert.
  - intros i. unfold decryptedAt. cbn. apply default_lookup_insert.
Qed.

Lemma effect_of_exec env c s u s' : exec env c s = Ok (u, s') → effect s s'.
Proof.
  destruct c; cbn [exec].
  - rewrite authorizeIssuer_eq.
    destruct (msg_sender env =? systemAdmin s); [|discriminate].
    intros [= <- <-]. by apply effect_none.
  - apply effect_of_issue.
  - rewrite updateReputationProfile_eq.
    destruct (isInitialized (profileAt s subject0)); [|discriminate].
    intros [= <- <-]. by apply effect_none.
  - unfold discard. unfold_M. rewrite generateReputationProof_eq.
    destruct (isInitialized (profileAt s subject0)); [|discriminate].
    destruct (vcCount s <? MAX_UINT256); [|discriminate].
    cbn zeta. intros [= <- <-]. apply effect_of_new_proof.
  - rewrite requestProofDecryption_eq.
    destruct (isValid (proofAt s proofId)) eqn:Hv; [|discriminate].
    destruct (isRevealed (decryptedAt s proofId)) eqn:Hr; [discriminate|].
    intros [= <- <-].
    apply (effect_route _ _ (oracle_requestId env) proofId); try done.
    intros r. unfold proofIdOf. cbn. apply default_lookup_insert.
  - intros (a & b & Hnz & Hv & Hr & ->)%decryptReputationProof_ok.
    apply (effect_reveal _ _ (proofIdOf s requestId) a b); try done.
    intros i. by rewrite decryptedAt_write_decrypted.
  - intros H%onlyIssuer_then. by eapply effect_of_issue.
  - rewrite revokeCredential_eq.
    destruct (issuer (vcAt s vcId) =? msg_sender env); [|discriminate].
    intros [= <- <-]. apply (effect_revoke _ _ vcId); try done.
    intros i. by rewrite vcAt_write_vc.
  - intros H%onlyIssuer_then. by eapply effect_of_issue.
  - unfold discard. unfold_M.
    rewrite generateTimeBoundProof_eq, generateReputationProof_eq.
    destruct (isInitialized (profileAt s subject0)); [|discriminate].
    destruct (vcCount s <? MAX_UINT256); [|discriminate].
    cbn zeta. intros [= <- <-].
    set (total := encryptedTotalScore (profileAt s subject0)).
    apply (effect_proof _ _
             (mkReputationProof minScore0
                (FHE.cmux (FHE.gte total minScore0) total (asEuint32 0))
                false)); try done.
    + intros i. rewrite proofAt_write_proof. unfold proofAt. cbn.
      rewrite !default_lookup_insert.
      case_decide; [by rewrite decide_True|done].
    + intros i. unfold decryptedAt. cbn. apply default_lookup_insert.
  - apply effect_of_issue.
  - unfold discard. unfold_M. rewrite generateCompositeProof_eq.
    destruct (isInitialized (profileAt s subject0)); [|discriminate].
    destruct (vcCount s <? MAX_UINT256); [|discriminate].
    cbn zeta. intros [= <- <-]. apply effect_of_new_proof.
  - unfold protectUserPrivacy, onlyAdmin. unfold_M.
    destruct (msg_sender env =? systemAdmin s); [|discriminate].
    intros [= <- <-]. apply effect_refl.
  - intros H%onlyIssuer_then. by eapply effect_of_issue.
  - intros H%onlyIssuer_then. by eapply effect_of_issue.
Qed.

Lemma effect_of_step s tx : effect s (step s tx).
Proof.
  unfold step, run.
  destruct (exec (fst tx) (snd tx) s) as [[u s']|e] eqn:E; cbn;
    [by eapply effect_of_exec|apply effect_refl].
Qed.

(** ** The id space *)

Lemma valid_not_zero (p : ReputationProof) : isValid p = true → p ≠ zeroProof.
Proof. by intros H ->. Qed.

Lemma Ids_deploy env : Ids (constructor env).
Proof.
  split; unfold vcAt, proofAt, decryptedAt, credentialsOf, proofIdOf; cbn;
    intros; rewrite ?lookup_empty in *; cbn in *; try done.
  - by apply elem_of_nil in H.
  - apply NoDup_nil_2.
Qed.

Lemma Ids_effect s s' : Ids s → effect s s' → Ids s'.
Proof.
  intros [Hz Hf Hr Hn Hp Hq] Heff.
  destruct Hz as (Hz1 & Hz2 & Hz3).
  destruct Heff as
    [Hc Hvc Hl Hpf Hd Hrt
    |vc Hid Hact Hc Hvc Hl Hpf Hd Hrt
    |rp Hc Hpf Hd Hvc Hl Hrt
    |r0 pid Hvalid Hunrev Hrt Hc Hvc Hl Hpf Hd
    |pid v1 v2 Hnz Hvalid Hunrev Hd Hc Hvc Hl Hpf Hrt
    |i0 Hvc Hc Hl Hpf Hd Hrt];
    unfold same_count, same_credentials, same_lists, same_proofs,
      same_revealed, same_router in *.
  - (* nothing the ledgers show *)
    split; intros; rewrite ?Hc, ?Hvc, ?Hl, ?Hpf, ?Hd, ?Hrt in *; eauto.
  - (* a credential issued *)
    split.
    + rewrite Hvc, Hpf, Hd. rewrite decide_False by lia. done.
    + intros i Hi. rewrite Hvc, Hpf, Hd. rewrite decide_False by lia.
      apply Hf. lia.
    + intros a i. rewrite Hl, Hvc, Hpf, Hd, Hc.
      destruct (decide (subject vc = a)) as [Ha|Ha].
      * intros [Hin|Hin%list_elem_of_singleton]%elem_of_app.
        -- destruct (Hr a i Hin) as (Hb & H1 & H2 & H3 & H4).
           rewrite decide_False by lia. repeat split; try done; lia.
        -- subst i. rewrite decide_True by done.
           destruct (Hf (vcCount s + 1)) as (_ & H3 & H4); [lia|].
           repeat split; try done; lia.
      * intros Hin. destruct (Hr a i Hin) as (Hb & H1 & H2 & H3 & H4).
        rewrite decide_False by lia. repeat split; try done; lia.
    + intros a. rewrite Hl. case_decide; [|apply Hn].
      apply NoDup_app. split; [apply Hn|]. split; [|apply NoDup_singleton].
      intros i Hin Hin'%list_elem_of_singleton. subst i.
      destruct (Hr a _ Hin) as (Hb & _). lia.
    + intros i. rewrite Hpf, Hd, Hvc. intros Hnz.
      case_decide as Hi; [|by apply Hp].
      subst i. destruct (Hf (vcCount s + 1)) as (_ & H3 & H4); [lia|].
      destruct Hnz as [Hnz|Hnz]; congruence.
    + intros r. rewrite Hrt, Hpf. apply Hq.
  - (* a proof stored *)
    split.
    + rewrite Hvc, Hpf, Hd. rewrite !decide_False by lia. done.
    + intros i Hi. rewrite Hvc, Hpf, Hd. rewrite !decide_False by lia.
      apply Hf. lia.
    + intros a i. rewrite Hl, Hvc, Hpf, Hd, Hc. intros Hin.
      destruct (Hr a i Hin) as (Hb & H1 & H2 & H3 & H4).
      rewrite !decide_False by lia. repeat split; try done; lia.
    + intros a. rewrite Hl. apply Hn.
    + intros i. rewrite Hpf, Hd, Hvc.
      case_decide as Hi; [|apply Hp].
      intros _. subst i. apply Hf. lia.
    + intros r. rewrite Hrt, Hpf. intros Hnz. specialize (Hq r Hnz).
      case_decide as Hi; [|done].
      destruct (Hf (vcCount s + 1)) as (_ & H3 & _); [lia|].
      rewrite <- Hi, H3 in Hq. discriminate.
  - (* a request routed *)
    split; intros; rewrite ?Hc, ?Hvc, ?Hl, ?Hpf, ?Hd in *; eauto.
    revert H. rewrite Hrt. case_decide; [done|apply Hq].
  - (* a proof revealed *)
    assert (Hpid : ∀ i, proofAt s i = zeroProof → pid ≠ i).
    { intros i Hi ->. rewrite Hi in Hvalid. discriminate. }
    split.
    + rewrite Hvc, Hpf, Hd. by rewrite decide_False.
    + intros i Hi. rewrite Hvc, Hpf, Hd, Hc in *.
      destruct (Hf i Hi) as (H1 & H2 & H3).
      by rewrite decide_False by (by apply Hpid).
    + intros a i. rewrite Hl, Hvc, Hpf, Hd, Hc. intros Hin.
      destruct (Hr a i Hin) as (Hb & H1 & H2 & H3 & H4).
      by rewrite decide_False by (by apply Hpid).
    + intros a. rewrite Hl. apply Hn.
    + intros i. rewrite Hpf, Hd, Hvc.
      case_decide as Hi; [|apply Hp].
      intros _. subst i. apply Hp. left. by apply valid_not_zero.
    + intros r. rewrite Hrt, Hpf. apply Hq.
  - (* a credential revoked *)
    assert (Hrev : ∀ i, vcAt s i = zeroVC → vcAt s' i = zeroVC).
    { intros i Hi. rewrite Hvc. case_decide; [|done]. subst i. by rewrite Hi. }
    split.
    + rewrite Hpf, Hd. split; [by apply Hrev|done].
    + intros i Hi. rewrite Hpf, Hd, Hc in *.
      destruct (Hf i Hi) as (H1 & H2 & H3). split; [by apply Hrev|done].
    + intros a i. rewrite Hl, Hvc, Hpf, Hd, Hc. intros Hin.
      destruct (Hr a i Hin) as (Hb & H1 & H2 & H3 & H4).
      case_decide; [subst i0|done]. done.
    + intros a. rewrite Hl. apply Hn.
    + intros i. rewrite Hpf, Hd. intros Hnz. by apply Hrev, Hp.
    + intros r. rewrite Hrt, Hpf. apply Hq.
Qed.

Lemma reachable_Ids s : reachable s → Ids s.
Proof.
  induction 1 as [env|s tx _ IH]; [apply Ids_deploy|].
  eapply Ids_effect; [exact IH|apply effect_of_step].
Qed.

Lemma run_trace_invariant (P : State → Prop) :
  (∀ s tx, reachable s → P s → P (step s tx)) →
  ∀ txs s, reachable s → P s → P (run_trace txs s).
Proof.
  intros Hstep txs. induction txs as [|tx txs IH]; intros s Hr HP; [done|].
  rewrite run_trace_cons. apply IH; [by constructor|by apply Hstep].
Qed.

Lemma with_isActive_idem b vc :
  with_isActive b (with_isActive b vc) = with_isActive b vc.
Proof. reflexivity. Qed.

(** One transaction leaves a recorded credential where it is, changes at
    most its active flag, and never sets the flag again. *)
Lemma effect_keeps_credential s s' a i :
  Ids s → effect s s' → i ∈ credentialsOf s a →
  i ∈ credentialsOf s' a ∧
  with_isActive false (vcAt s' i) = with_isActive false (vcAt s i) ∧
  (isActive (vcAt s i) = false → isActive (vcAt s' i) = false).
Proof.
  intros [_ _ Hr _ _ _] Heff Hin.
  destruct (Hr a i Hin) as (Hb & _).
  destruct Heff as
    [Hc Hvc Hl Hpf Hd Hrt
    |vc Hid Hact Hc Hvc Hl Hpf Hd Hrt
    |rp Hc Hpf Hd Hvc Hl Hrt
    |r0 pid Hvalid Hunrev Hrt Hc Hvc Hl Hpf Hd
    |pid v1 v2 Hnz Hvalid Hunrev Hd Hc Hvc Hl Hpf Hrt
    |i0 Hvc Hc Hl Hpf Hd Hrt];
    unfold same_credentials, same_lists in *;
    rewrite ?Hvc, ?Hl; try done.
  - destruct (decide (vcCount s + 1 = i)); [lia|]. split; [|done].
    case_decide; [|done]. apply elem_of_app. by left.
  - split; [done|]. case_decide; [subst i0|done]. done.
Qed.

Lemma effect_keeps_valid_proof s s' p :
  Ids s → effect s s' → isValid (proofAt s p) = true →
  proofAt s' p = proofAt s p.
Proof.
  intros [_ Hf _ _ _ _] Heff Hv.
  destruct Heff as
    [Hc Hvc Hl Hpf Hd Hrt
    |vc Hid Hact Hc Hvc Hl Hpf Hd Hrt
    |rp Hc Hpf Hd Hvc Hl Hrt
    |r0 pid Hvalid Hunrev Hrt Hc Hvc Hl Hpf Hd
    |pid v1 v2 Hnz Hvalid Hunrev Hd Hc Hvc Hl Hpf Hrt
    |i0 Hvc Hc Hl Hpf Hd Hrt];
    unfold same_proofs in *; rewrite ?Hpf; try done.
  case_decide as Hi; [|done]. subst p.
  destruct (Hf (vcCount s + 1)) as (_ & H3 & _); [lia|].
  rewrite H3 in Hv. discriminate.
Qed.

Lemma effect_keeps_revealed s s' p :
  Ids s → effect s s' → isRevealed (decryptedAt s p) = true →
  decryptedAt s' p = decryptedAt s p.
Proof.
  intros [_ Hf _ _ _ _] Heff Hv.
  destruct Heff as
    [Hc Hvc Hl Hpf Hd Hrt
    |vc Hid Hact Hc Hvc Hl Hpf Hd Hrt
    |rp Hc Hpf Hd Hvc Hl Hrt
    |r0 pid Hvalid Hunrev Hrt Hc Hvc Hl Hpf Hd
    |pid v1 v2 Hnz Hvalid Hunrev Hd Hc Hvc Hl Hpf Hrt
    |i0 Hvc Hc Hl Hpf Hd Hrt];
    unfold same_revealed in *; rewrite ?Hd; try done.
  - case_decide as Hi; [|done]. subst p.
    destruct (Hf (vcCount s + 1)) as (_ & _ & H3); [lia|].
    rewrite H3 in Hv. discriminate.
  - case_decide as Hi; [|done]. subst p. congruence.
Qed.

(** X5: in a reachable state every credential list is free of duplicates,
    and an id recorded in the list of a subject lies between 1 and the
    counter, names a credential whose stored id is that id and whose
    stored subject is that subject, and is recorded in no other subject's
    list. *)
Theorem credential_lists_partition_ids (s : State) (a : address) (i : N) :
  reachable s → i ∈ credentialsOf s a →
  NoDup (credentialsOf s a) ∧
  1 ≤ i ≤ vcCount s ∧
  vc_id (vcAt s i) = i ∧
  subject (vcAt s i) = a ∧
  (∀ b, i ∈ credentialsOf s b → b = a).
Proof.
  intros Hr Hin. destruct (reachable_Ids s Hr) as [_ _ Hrec Hn _ _].
  destruct (Hrec a i Hin) as (Hb & Hid & Hs & _).
  split; [apply Hn|]. split; [lia|]. split; [done|]. split; [done|].
  intros b Hb'. destruct (Hrec b i Hb') as (_ & _ & Hs' & _). congruence.
Qed.

Lemma credential_lists_partition_ids_witness :
  NoDup (credentialsOf Scenario.st_issued Scenario.alice) ∧
  subject (vcAt Scenario.st_issued 4) = Scenario.alice.
Proof.
  destruct (credential_lists_partition_ids Scenario.st_issued
              Scenario.alice 4) as (H1 & _ & _ & H2 & _).
  - apply reachable_run_trace. constructor.
  - vm_compute. apply list_elem_of_In. cbn. tauto.
  - by split.
Defined.

(** ** Who may issue *)

Lemma exec_trust env c s u s' a :
  exec env c s = Ok (u, s') →
  systemAdmin s' = systemAdmin s ∧
  isTrustedIssuer s' a
  = isTrustedIssuer s a || authorizes (systemAdmin s) a (env, c).
Proof.
  assert (Hissue : ∀ subj ty sc w,
            issueEncryptedVC env subj ty sc w s = Ok (u, s') →
            systemAdmin s' = systemAdmin s ∧
            isTrustedIssuer s' a = isTrustedIssuer s a || false).
  { intros subj ty sc w. rewrite issueEncryptedVC_eq.
    destruct (isTrustedIssuer s (msg_sender env)); [|discriminate].
    destruct (vcCount s <? MAX_UINT256); [|discriminate].
    cbn zeta. intros [= <- <-].
    destruct (isInitialized (profileAt s subj));
      by rewrite orb_false_r. }
  destruct c; cbn [exec authorizes fst snd].
  - rewrite authorizeIssuer_eq.
    destruct (msg_sender env =? systemAdmin s); [|discriminate].
    intros [= <- <-]. split; [done|].
    unfold isTrustedIssuer. cbn. rewrite default_lookup_insert.
    destruct (issuer0 =? a) eqn:E.
    + apply N.eqb_eq in E. rewrite decide_True by done.
      by rewrite orb_true_r.
    + apply N.eqb_neq in E. rewrite decide_False by done.
      by rewrite orb_false_r.
  - apply Hissue.
  - rewrite updateReputationProfile_eq.
    destruct (isInitialized (profileAt s subject0)); [|discriminate].
    intros [= <- <-]. by rewrite orb_false_r.
  - unfold discard. unfold_M. rewrite generateReputationProof_eq.
    destruct (isInitialized (profileAt s subject0)); [|discriminate].
    destruct (vcCount s <? MAX_UINT256); [|discriminate].
    intros [= <- <-]. by rewrite orb_false_r.
  - rewrite requestProofDecryption_eq.
    destruct (isValid (proofAt s proofId)); [|discriminate].
    destruct (isRevealed (decryptedAt s proofId)); [discriminate|].
    intros [= <- <-]. by rewrite orb_false_r.
  - intros (v1 & v2 & _ & _ & _ & ->)%decryptReputationProof_ok.
    by rewrite orb_false_r.
  - intros H%onlyIssuer_then. by eapply Hissue.
  - rewrite revokeCredential_eq.
    destruct (issuer (vcAt s vcId) =? msg_sender env); [|discriminate].
    intros [= <- <-]. by rewrite orb_false_r.
  - intros H%onlyIssuer_then. by eapply Hissue.
  - unfold discard. unfold_M.
    rewrite generateTimeBoundProof_eq, generateReputationProof_eq.
    destruct (isInitialized (profileAt s subject0)); [|discriminate].
    destruct (vcCount s <? MAX_UINT256); [|discriminate].
    intros [= <- <-]. by rewrite orb_false_r.
  - apply Hissue.
  - unfold discard. unfold_M. rewrite generateCompositeProof_eq.
    destruct (isInitialized (profileAt s subject0)); [|discriminate].
    destruct (vcCount s <? MAX_UINT256); [|discriminate].
    intros [= <- <-]. by rewrite orb_false_r.
  - unfold protectUserPrivacy, onlyAdmin. unfold_M.
    destruct (msg_sender env =? systemAdmin s); [|discriminate].
    intros [= <- <-]. by rewrite orb_false_r.
  - intros H%onlyIssuer_then. by eapply Hissue.
  - intros H%onlyIssuer_then. by eapply Hissue.
Qed.

Lemma step_trust s tx a :
  systemAdmin (step s tx) = systemAdmin s ∧
  isTrustedIssuer (step s tx) a
  = isTrustedIssuer s a || authorizes (systemAdmin s) a tx.
Proof.
  destruct tx as [env c]. unfold step, run. cbn [fst snd].
  destruct (exec env c s) as [[u s']|e] eqn:E; cbn [fst].
  - by eapply exec_trust.
  - split; [done|].
    destruct c; cbn [authorizes fst snd]; try (by rewrite orb_false_r).
    revert E. cbn [exec]. rewrite authorizeIssuer_eq.
    destruct (msg_sender env =? systemAdmin s); [discriminate|].
    by rewrite orb_false_r.
Qed.

Lemma run_trace_trust txs s a :
  systemAdmin (run_trace txs s) = systemAdmin s ∧
  isTrustedIssuer (run_trace txs s) a
  = isTrustedIssuer s a || existsb (authorizes (systemAdmin s) a) txs.
Proof.
  revert s. induction txs as [|tx txs IH]; intros s.
  - cbn. by rewrite orb_false_r.
  - rewrite run_trace_cons. destruct (IH (step s tx)) as [H1 H2].
    destruct (step_trust s tx a) as [H3 H4].
    rewrite H1, H2, H3, H4. cbn [existsb]. by rewrite orb_assoc.
Qed.

(** X1: after any sequence of transactions on a freshly deployed contract
    the administrator is still the deployer, and an address is a trusted
    issuer exactly when the sequence contains an [authorizeIssuer] call
    for it sent by the deployer; no other call, and no call by anyone
    else, adds to or removes from the trusted issuers. *)
Theorem trusted_issuers_are_authorized (env : Env) (txs : list (Env * Call))
    (a : address) :
  systemAdmin (run_trace txs (constructor env)) = msg_sender env ∧
  isTrustedIssuer (run_trace txs (constructor env)) a
  = existsb (authorizes (msg_sender env) a) txs.
Proof.
  destruct (run_trace_trust txs (constructor env) a) as [H1 H2].
  split; [exact H1|]. rewrite H2. reflexivity.
Qed.

(** X2: a caller that is not a trusted issuer cannot issue a credential
    through any of the six issuing entry points, the one without a
    modifier of its own included: each reverts with "Not trusted issuer"
    and the storage is as before. *)
Theorem untrusted_caller_cannot_issue (s : State) (env : Env)
    (subj : address) (ty sc w : euint32) :
  isTrustedIssuer s (msg_sender env) = false →
  run (issueEncryptedVC env subj ty sc w) s = (s, Revert NotTrustedIssuer) ∧
  run (issueAnonymousAttestation env subj sc) s
    = (s, Revert NotTrustedIssuer) ∧
  run (issueCrossPlatformCredential env subj sc) s
    = (s, Revert NotTrustedIssuer) ∧
  run (issueCommunityEndorsement env subj sc) s
    = (s, Revert NotTrustedIssuer) ∧
  run (issueSkillCertification env subj sc) s
    = (s, Revert NotTrustedIssuer) ∧
  run (issueDIDScore env subj sc) s = (s, Revert NotTrustedIssuer).
Proof.
  intros H.
  assert (Hissue : ∀ ty' sc' w',
            run (issueEncryptedVC env subj ty' sc' w') s
            = (s, Revert NotTrustedIssuer)).
  { intros. unfold run. by rewrite issueEncryptedVC_eq, H. }
  assert (Hwrap : ∀ m : M unit,
            run (onlyIssuer env;; m) s = (s, Revert NotTrustedIssuer)).
  { intros m. unfold run, onlyIssuer. unfold_M. by rewrite H. }
  repeat split; try apply Hissue; apply Hwrap.
Qed.

Lemma untrusted_caller_cannot_issue_witness :
  run (issueCommunityEndorsement (Scenario.at_time Scenario.bob 5000)
         Scenario.bob (Enc 99)) Scenario.st_issued
  = (Scenario.st_issued, Revert NotTrustedIssuer).
Proof.
  destruct (untrusted_caller_cannot_issue Scenario.st_issued
              (Scenario.at_time Scenario.bob 5000) Scenario.bob
              (Enc 0) (Enc 99) (Enc 0)) as (_ & _ & _ & H & _).
  - by vm_compute.
  - exact H.
Defined.

(** X3: issuing and reading back.  For a trusted caller and a counter
    below 2^256-1, [issueEncryptedVC] succeeds, assigns the next id,
    appends it at the end of the subject's list, and the read accessor
    returns under that id the caller as issuer, the subject, the three
    ciphertexts, the block time, and an active flag that is set; every
    other credential is as before; a subject's profile that was already
    initialized is not touched (it is stale until recomputed), and a new
    one is initialized with zeros. *)
Theorem issue_then_read (s : State) (env : Env) (subj : address)
    (ty sc w : euint32) :
  isTrustedIssuer s (msg_sender env) = true →
  vcCount s < MAX_UINT256 →
  ∃ s',
    run (issueEncryptedVC env subj ty sc w) s = (s', Ok tt) ∧
    vcCount s' = vcCount s + 1 ∧
    credentialsOf s' subj = credentialsOf s subj ++ [vcCount s + 1] ∧
    run (getEncryptedVC (vcCount s + 1)) s'
      = (s', Ok (msg_sender env, subj, ty, sc, w, block_timestamp env, true)) ∧
    (∀ i, i ≠ vcCount s + 1 → vcAt s' i = vcAt s i) ∧
    (∀ a, a ≠ subj → credentialsOf s' a = credentialsOf s a ∧
                     profileAt s' a = profileAt s a) ∧
    profileAt s' subj =
      (if isInitialized (profileAt s subj) then profileAt s subj
       else mkReputationProfile (Enc 0) (Enc 0) (Enc 0) true).
Proof.
  intros Ht Hc. apply N.ltb_lt in Hc.
  destruct (issueEncryptedVC env subj ty sc w s) as [[[] s']|e] eqn:E.
  2:{ rewrite issueEncryptedVC_eq, Ht, Hc in E. discriminate. }
  pose proof (issueEncryptedVC_reads _ _ _ _ _ _ _ _ E)
    as (_ & Hn & Hvc & Hl & Hp & _).
  exists s'. split; [unfold run; by rewrite E|].
  split; [done|]. split; [by rewrite Hl, decide_True|].
  split.
  { unfold run, getEncryptedVC. unfold_M.
    by rewrite Hvc, decide_True. }
  split; [intros i Hi; by rewrite Hvc, decide_False|].
  split.
  { intros a Ha. by rewrite Hl, Hp, !decide_False. }
  rewrite Hp, decide_True by done. done.
Qed.

Lemma issue_then_read_witness :
  ∃ s',
    run (issueEncryptedVC (Scenario.at_time Scenario.issuerB 6000)
           Scenario.bob (Enc 5) (Enc 33) (Enc 4)) Scenario.st_issued
      = (s', Ok tt) ∧
    run (getEncryptedVC 5) s'
      = (s', Ok (Scenario.issuerB, Scenario.bob, Enc 5, Enc 33, Enc 4,
                 6000, true)).
Proof.
  destruct (issue_then_read Scenario.st_issued
              (Scenario.at_time Scenario.issuerB 6000) Scenario.bob
              (Enc 5) (Enc 33) (Enc 4)) as (s' & H1 & _ & _ & H2 & _).
  - by vm_compute.
  - by vm_compute.
  - exists s'. split; [exact H1|exact H2].
Defined.

(** X4: each issuing wrapper that carries the [onlyIssuer] modifier has
    the outcome of [issueEncryptedVC] with its fixed type and weight (0
    and 1, 999 and 2, 200 and 2, 400 and 3): the check of the wrapper is
    the check [issueEncryptedVC] makes anyway.  In particular an anonymous
    attestation stores its caller as the issuer like any other
    credential. *)
Theorem issuing_wrappers_issue (env : Env) (subj : address) (sc : euint32)
    (s : State) :
  issueAnonymousAttestation env subj sc s
    = issueEncryptedVC env subj (asEuint32 0) sc (asEuint32 1) s ∧
  issueCrossPlatformCredential env subj sc s
    = issueEncryptedVC env subj (asEuint32 999) sc (asEuint32 2) s ∧
  issueSkillCertification env subj sc s
    = issueEncryptedVC env subj (asEuint32 200) sc (asEuint32 2) s ∧
  issueDIDScore env subj sc s
    = issueEncryptedVC env subj (asEuint32 400) sc (asEuint32 3) s ∧
  issueCommunityEndorsement env subj sc s
    = issueEncryptedVC env subj (asEuint32 100) sc (asEuint32 3) s.
Proof.
  assert (H : ∀ ty w,
            (onlyIssuer env;; issueEncryptedVC env subj ty sc w) s
            = issueEncryptedVC env subj ty sc w s).
  { intros ty w. rewrite issueEncryptedVC_eq.
    unfold onlyIssuer at 1. unfold_M.
    destruct (isTrustedIssuer s (msg_sender env)) eqn:Ht; [|done].
    cbn. fold (issueEncryptedVC env subj ty sc w s).
    by rewrite issueEncryptedVC_eq, Ht. }
  repeat split; try apply H. 
Qed.

(** ** Credentials and proofs share one counter *)

(** X6: credential ids and proof ids never collide.  In a reachable state
    an id recorded as a credential holds no proof: a reveal request for it
    and [verifyProofWithoutDecryption] on it both revert with "Invalid
    proof"; and an id that holds a valid proof holds no credential: it is
    in no credential list and reads as the zero credential. *)
Theorem credential_and_proof_ids_disjoint (s : State) (i : N) :
  reachable s →
  (∀ a env, i ∈ credentialsOf s a →
     run (requestProofDecryption env i) s = (s, Revert InvalidProof) ∧
     run (verifyProofWithoutDecryption i) s = (s, Revert InvalidProof) ∧
     run (getReputationProof i) s = (s, Ok (Enc 0, Enc 0, false))) ∧
  (isValid (proofAt s i) = true →
     never_issued s i ∧
     run (getEncryptedVC i) s
     = (s, Ok (0, 0, Enc 0, Enc 0, Enc 0, 0, false))).
Proof.
  intros Hr. destruct (reachable_Ids s Hr) as [_ _ Hrec _ Hp _].
  split.
  - intros a env Hin. destruct (Hrec a i Hin) as (_ & _ & _ & Hz & _).
    unfold run. rewrite requestProofDecryption_eq.
    unfold verifyProofWithoutDecryption, getReputationProof. unfold_M.
    by rewrite Hz.
  - intros Hv. split.
    + intros a Hin. destruct (Hrec a i Hin) as (_ & _ & _ & Hz & _).
      rewrite Hz in Hv. discriminate.
    + unfold run, getEncryptedVC. unfold_M.
      rewrite (Hp i); [done|]. left. by apply valid_not_zero.
Qed.

Lemma credential_and_proof_ids_disjoint_witness :
  run (requestProofDecryption (Scenario.asking Scenario.alice 13) 4)
      Scenario.st_requested
    = (Scenario.st_requested, Revert InvalidProof) ∧
  never_issued Scenario.st_requested 5.
Proof.
  assert (Hr : reachable Scenario.st_requested).
  { apply reachable_run_trace. constructor. }
  destruct (credential_and_proof_ids_disjoint Scenario.st_requested 4 Hr)
    as (H1 & _).
  destruct (credential_and_proof_ids_disjoint Scenario.st_requested 5 Hr)
    as (_ & H2).
  split.
  - apply (H1 Scenario.alice). vm_compute. apply list_elem_of_In. cbn. tauto.
  - apply H2. by vm_compute.
Defined.

(** X7: a credential, once issued, is never deleted or rewritten.  From a
    reachable state, whatever transactions follow, an id recorded in a
    subject's list stays in that list, the credential read under it
    differs from the one read before at most in its active flag, and a
    flag that was false stays false: nothing reactivates a revoked
    credential. *)
Theorem credential_is_immutable (s : State) (txs : list (Env * Call))
    (a : address) (i : N) :
  reachable s → i ∈ credentialsOf s a →
  i ∈ credentialsOf (run_trace txs s) a ∧
  with_isActive false (vcAt (run_trace txs s) i)
    = with_isActive false (vcAt s i) ∧
  (isActive (vcAt s i) = false →
   isActive (vcAt (run_trace txs s) i) = false).
Proof.
  intros Hr Hin.
  apply (run_trace_invariant
           (λ s', i ∈ credentialsOf s' a ∧
                  with_isActive false (vcAt s' i)
                    = with_isActive false (vcAt s i) ∧
                  (isActive (vcAt s i) = false →
                   isActive (vcAt s' i) = false))); [|done|done].
  intros s1 tx Hr1 (H1 & H2 & H3).
  destruct (effect_keeps_credential s1 (step s1 tx) a i
              (reachable_Ids s1 Hr1) (effect_of_step s1 tx) H1)
    as (H4 & H5 & H6).
  split; [done|]. split; [congruence|]. intros H. by apply H6, H3.
Qed.

Lemma credential_is_immutable_witness :
  with_isActive false
    (vcAt (run_trace
             [(Scenario.at_time Scenario.issuerA 7000, RevokeCredential 1);
              (Scenario.at_time Scenario.issuerA 7001,
               IssueEncryptedVC Scenario.alice (Enc 9) (Enc 9) (Enc 9))]
             Scenario.st_issued) 1)
  = with_isActive false (vcAt Scenario.st_issued 1).
Proof.
  apply (credential_is_immutable Scenario.st_issued _ Scenario.alice 1).
  - apply reachable_run_trace. constructor.
  - vm_compute. apply list_elem_of_In. cbn. tauto.
Defined.

(** X8: a valid proof is final.  From a reachable state, whatever
    transactions follow, a proof that is valid keeps its threshold, its
    proof value and its validity: no call invalidates or overwrites a
    stored valid proof ([generateTimeBoundProof] only ever invalidates the
    proof it has just created). *)
Theorem valid_proof_is_final (s : State) (txs : list (Env * Call)) (p : N) :
  reachable s → isValid (proofAt s p) = true →
  proofAt (run_trace txs s) p = proofAt s p.
Proof.
  intros Hr Hv.
  apply (run_trace_invariant (λ s', proofAt s' p = proofAt s p));
    [|done|done].
  intros s1 tx Hr1 H1. rewrite <- H1.
  apply effect_keeps_valid_proof;
    [by apply reachable_Ids|apply effect_of_step|by rewrite H1].
Qed.

Lemma valid_proof_is_final_witness :
  proofAt (run_trace
             [(Scenario.at_time Scenario.alice 7000,
               GenerateTimeBoundProof Scenario.alice (Enc 1) 60);
              (Scenario.at_time Scenario.issuerA 7001, RevokeCredential 1);
              (Scenario.at_time Scenario.alice 7002,
               UpdateReputationProfile Scenario.alice)]
             Scenario.st_requested) 5
  = proofAt Scenario.st_requested 5.
Proof.
  apply (valid_proof_is_final Scenario.st_requested).
  - apply reachable_run_trace. constructor.
  - by vm_compute.
Defined.

(** X9: a revealed proof is final.  From a reachable state, whatever
    transactions follow, a DecryptedProof that is revealed keeps its
    minScore, its proofValue and its flag. *)
Theorem revealed_proof_is_final (s : State) (txs : list (Env * Call))
    (p : N) :
  reachable s → isRevealed (decryptedAt s p) = true →
  decryptedAt (run_trace txs s) p = decryptedAt s p.
Proof.
  intros Hr Hv.
  apply (run_trace_invariant (λ s', decryptedAt s' p = decryptedAt s p));
    [|done|done].
  intros s1 tx Hr1 H1. rewrite <- H1.
  apply effect_keeps_revealed;
    [by apply reachable_Ids|apply effect_of_step|by rewrite H1].
Qed.

Lemma revealed_proof_is_final_witness :
  decryptedAt (run_trace
                 [(Example.requesting, RequestProofDecryption 2);
                  (Example.as_ Example.relayer,
                   DecryptReputationProof 77 [1%Z; 2%Z] []);
                  (Example.as_ Example.S,
                   GenerateReputationProof Example.S (Enc 3))]
                 Example.st_revealed) 2
  = decryptedAt Example.st_revealed 2.
Proof.
  apply (revealed_proof_is_final Example.st_revealed).
  - apply reachable_run_trace. constructor.
  - by vm_compute.
Defined.

(** X10: in a reachable state the request router only ever points at
    valid proofs, so the callback never reverts with "Invalid proof": it
    reverts with "Invalid request" exactly when the request id is not
    mapped, and for a mapped id whose proof is already revealed it
    reverts with "Already decrypted". *)
Theorem callback_guards_in_reachable_states (s : State) (env : Env)
    (requestId : N) (cleartexts proof : list Z) :
  reachable s →
  snd (run (decryptReputationProof env requestId cleartexts proof) s)
    ≠ Revert InvalidProof ∧
  (snd (run (decryptReputationProof env requestId cleartexts proof) s)
     = Revert InvalidRequest ↔ proofIdOf s requestId = 0) ∧
  (proofIdOf s requestId ≠ 0 →
   isValid (proofAt s (proofIdOf s requestId)) = true ∧
   (isRevealed (decryptedAt s (proofIdOf s requestId)) = true →
    snd (run (decryptReputationProof env requestId cleartexts proof) s)
      = Revert AlreadyDecrypted)).
Proof.
  intros Hr. destruct (reachable_Ids s Hr) as [_ _ _ _ _ Hq].
  unfold run. rewrite decryptReputationProof_guards. cbn zeta.
  destruct (proofIdOf s requestId =? 0) eqn:Hz.
  - apply N.eqb_eq in Hz. cbn. split; [done|]. split; [done|]. done.
  - apply N.eqb_neq in Hz. rewrite (Hq _ Hz). cbn [negb].
    destruct (isRevealed (decryptedAt s (proofIdOf s requestId))) eqn:Hrev.
    + cbn. split; [done|]. split; [by split|]. done.
    + assert (Hrest : ∀ r : result (unit * State),
                r ≠ Revert InvalidProof → r ≠ Revert InvalidRequest →
                snd match r with
                    | Ok (a, s') => (s', Ok a)
                    | Revert e => (s, Revert e)
                    end ≠ Revert InvalidProof ∧
                (snd match r with
                     | Ok (a, s') => (s', Ok a)
                     | Revert e => (s, Revert e)
                     end = Revert InvalidRequest ↔ proofIdOf s requestId = 0)).
      { intros [[u s']|e] H1 H2; cbn; (split; [congruence|]);
          split; try done; congruence. }
      destruct (signatures_valid env); cbn [negb];
        [|destruct (Hrest (Revert InvalidSignatures)); by try split].
      destruct cleartexts as [|v1 [|v2 cts]];
        try (destruct (Hrest (Revert AbiDecodeFailure)); by try split).
      destruct (in_uint32 v1 && in_uint32 v2);
        [|destruct (Hrest (Revert AbiDecodeFailure)); by try split].
      cbn. split; [done|]. split; [by split|]. done.
Qed.

Lemma callback_guards_in_reachable_states_witness :
  snd (run (decryptReputationProof (Scenario.at_time Scenario.bob 9000) 99
              [1%Z; 2%Z] []) Scenario.st_requested)
  = Revert InvalidRequest.
Proof.
  destruct (callback_guards_in_reachable_states Scenario.st_requested
              (Scenario.at_time Scenario.bob 9000) 99 [1%Z; 2%Z] [])
    as (_ & H & _).
  - apply reachable_run_trace. constructor.
  - apply H. by vm_compute.
Defined.

(** X11: several requests for one proof.  For a valid, unrevealed proof in
    a reachable state, two reveal requests answered with different request
    ids both succeed and both ids are routed to the proof; the first
    callback delivery that passes its checks reveals the proof with the
    values it carries; after it the delivery for the other request id
    reverts with "Already decrypted", and so does any further reveal
    request for the proof. *)
Theorem first_delivery_wins (s : State) (p : N) (env1 env2 env3 : Env)
    (v1 v2 : Z) (attestation : list Z) :
  reachable s →
  isValid (proofAt s p) = true →
  isRevealed (decryptedAt s p) = false →
  oracle_requestId env1 ≠ oracle_requestId env2 →
  signatures_valid env3 = true →
  in_uint32 v1 && in_uint32 v2 = true →
  ∃ s1 s2 s3,
    run (requestProofDecryption env1 p) s = (s1, Ok tt) ∧
    run (requestProofDecryption env2 p) s1 = (s2, Ok tt) ∧
    proofIdOf s2 (oracle_requestId env1) = p ∧
    proofIdOf s2 (oracle_requestId env2) = p ∧
    run (decryptReputationProof env3 (oracle_requestId env1) [v1; v2]
           attestation) s2 = (s3, Ok tt) ∧
    decryptedAt s3 p = mkDecryptedProof v1 v2 true ∧
    (∀ env cleartexts proof,
       run (decryptReputationProof env (oracle_requestId env2) cleartexts
              proof) s3 = (s3, Revert AlreadyDecrypted)) ∧
    (∀ env, run (requestProofDecryption env p) s3
            = (s3, Revert AlreadyDecrypted)).
Proof.
  intros Hr Hv Hu Hne Hsig Hrange.
  assert (Hp0 : p ≠ 0).
  { intros ->. destruct (reachable_Ids s Hr) as [(_ & Hz & _) _ _ _ _ _].
    rewrite Hz in Hv. discriminate. }
  set (s1 := set_requestToProofId
               (<[oracle_requestId env1 := p]> (requestToProofId s)) s).
  set (s2 := set_requestToProofId
               (<[oracle_requestId env2 := p]> (requestToProofId s1)) s1).
  set (s3 := write_decrypted p (λ _, mkDecryptedProof v1 v2 true) s2).
  assert (Hq1 : proofIdOf s2 (oracle_requestId env1) = p).
  { unfold proofIdOf, s2, s1. cbn.
    rewrite default_lookup_insert, decide_False by done.
    by rewrite default_lookup_insert, decide_True. }
  assert (Hq2 : proofIdOf s2 (oracle_requestId env2) = p).
  { unfold proofIdOf, s2. cbn.
    by rewrite default_lookup_insert, decide_True. }
  assert (Hd3 : decryptedAt s3 p = mkDecryptedProof v1 v2 true).
  { unfold s3. by rewrite decryptedAt_write_decrypted, decide_True. }
  exists s1, s2, s3.
  split; [|split; [|split; [|split; [|split; [|split; [|split]]]]]];
    try done.
  - unfold run. rewrite requestProofDecryption_eq. by rewrite Hv, Hu.
  - unfold run. rewrite requestProofDecryption_eq.
    change (proofAt s1 p) with (proofAt s p).
    change (decryptedAt s1 p) with (decryptedAt s p). by rewrite Hv, Hu.
  - unfold run. rewrite decryptReputationProof_guards. cbn zeta.
    rewrite Hq1. change (proofAt s2 p) with (proofAt s p).
    change (decryptedAt s2 p) with (decryptedAt s p).
    apply N.eqb_neq in Hp0. by rewrite Hp0, Hv, Hu, Hsig, Hrange.
  - intros env cleartexts proof. unfold run.
    rewrite decryptReputationProof_guards. cbn zeta.
    change (proofIdOf s3 (oracle_requestId env2))
      with (proofIdOf s2 (oracle_requestId env2)).
    rewrite Hq2, Hd3. change (proofAt s3 p) with (proofAt s p).
    apply N.eqb_neq in Hp0. by rewrite Hp0, Hv.
  - intros env. unfold run. rewrite requestProofDecryption_eq, Hd3.
    change (proofAt s3 p) with (proofAt s p). by rewrite Hv.
Qed.

Lemma first_delivery_wins_witness :
  ∃ s3,
    decryptedAt s3 5 = mkDecryptedProof 50 56 true ∧
    run (decryptReputationProof (Scenario.at_time Scenario.bob 9000) 22
           [0%Z; 0%Z] []) s3 = (s3, Revert AlreadyDecrypted).
Proof.
  destruct (first_delivery_wins
              (run_trace
                 [(Scenario.at_time Scenario.alice 4500,
                   GenerateReputationProof Scenario.alice (Enc 50))]
                 Scenario.st_issued)
              5 (Scenario.asking Scenario.alice 21)
              (Scenario.asking Scenario.bob 22)
              (Scenario.at_time Scenario.bob 8000) 50 56 [])
    as (s1 & s2 & s3 & _ & _ & _ & _ & _ & H1 & H2 & _).
  - apply reachable_run_trace, reachable_run_trace. constructor.
  - by vm_compute.
  - by vm_compute.
  - by vm_compute.
  - reflexivity.
  - reflexivity.
  - exists s3. split; [exact H1|apply H2].
Defined.

(** ** What the proofs say *)

Lemma fold_meet_requirement total reqs b x :
  fold_left (meet_requirement total) reqs (EncB b, Enc (x mod modulus32)) =
  (EncB (b && forallb (λ r, (reveal r <=? reveal total)%Z) reqs),
   Enc ((x + sumZ (map reveal (met_thresholds total reqs))) mod modulus32)).
Proof.
  revert b x. induction reqs as [|r reqs IH]; intros b x.
  - cbn. by rewrite andb_true_r, Z.add_0_r.
  - cbn [fold_left forallb met_thresholds List.filter].
    unfold meet_requirement at 2. unfold FHE.and, FHE.gte, FHE.cmux.
    cbn [revealb]. fold (met_thresholds total reqs).
    destruct (reveal r <=? reveal total)%Z.
    + rewrite add_mod_l, IH. cbn [map]. rewrite sumZ_cons.
      rewrite andb_true_r, andb_true_l.
      do 3 f_equal. lia.
    + rewrite add_mod_l, IH. change (reveal (asEuint32 0)) with 0%Z.
      rewrite Z.add_0_r. cbn [andb]. by rewrite !andb_false_r.
Qed.

(** X12: the composite proof.  For an initialized subject and a counter
    below 2^256-1, [generateCompositeProof] stores under the next id a
    valid proof with an unrevealed companion; its minScore field is 1 when
    the stored total score reaches every requirement and 0 otherwise; its
    proof value is the 32-bit sum of the requirements that are reached
    (of the thresholds, not of the score).  With no requirement at all the
    proof reads 1 and 0. *)
Theorem composite_proof_contents (s : State) (subj : address)
    (reqs : list euint32) :
  isInitialized (profileAt s subj) = true →
  vcCount s < MAX_UINT256 →
  let total := encryptedTotalScore (profileAt s subj) in
  ∃ s',
    run (generateCompositeProof subj reqs) s = (s', Ok (vcCount s + 1)) ∧
    proofAt s' (vcCount s + 1) =
      mkReputationProof
        (Enc (if forallb (λ r, (reveal r <=? reveal total)%Z) reqs
              then 1 else 0))
        (esum (met_thresholds total reqs)) true ∧
    decryptedAt s' (vcCount s + 1) = mkDecryptedProof 0 0 false ∧
    (reqs = [] →
     proofAt s' (vcCount s + 1) = mkReputationProof (Enc 1) (Enc 0) true).
Proof.
  intros Hinit Hc total. apply N.ltb_lt in Hc.
  eexists. split.
  { unfold run. rewrite generateCompositeProof_eq, Hinit, Hc. cbn zeta.
    reflexivity. }
  assert (Hfold : fold_left (meet_requirement total) reqs
                    (asEbool true, asEuint32 0)
                  = (EncB (forallb (λ r, (reveal r <=? reveal total)%Z) reqs),
                     esum (met_thresholds total reqs))).
  { rewrite esum_reveal. apply (fold_meet_requirement total reqs true 0). }
  assert (Hproof :
    proofAt
      (set_decryptedProofs
         (<[vcCount s + 1 := mkDecryptedProof 0 0 false]> (decryptedProofs s))
         (set_reputationProofs
            (<[vcCount s + 1 :=
                 mkReputationProof
                   (FHE.cmux
                      (fst (fold_left (meet_requirement total) reqs
                              (asEbool true, asEuint32 0)))
                      (asEuint32 1) (asEuint32 0))
                   (snd (fold_left (meet_requirement total) reqs
                           (asEbool true, asEuint32 0))) true]>
               (reputationProofs s))
            (set_vcCount (vcCount s + 1) s))) (vcCount s + 1)
    = mkReputationProof
        (Enc (if forallb (λ r, (reveal r <=? reveal total)%Z) reqs
              then 1 else 0))
        (esum (met_thresholds total reqs)) true).
  { unfold proofAt. cbn. rewrite default_lookup_insert, decide_True by done.
    rewrite Hfold. cbn [fst snd]. unfold FHE.cmux. cbn [revealb].
    by destruct (forallb _ reqs). }
  split; [exact Hproof|]. split.
  - unfold decryptedAt. cbn. by rewrite default_lookup_insert, decide_True.
  - intros Hnil. etransitivity; [exact Hproof|]. by rewrite Hnil.
Qed.

Lemma composite_proof_contents_witness :
  ∃ s',
    run (generateCompositeProof Scenario.alice [Enc 50; Enc 70; Enc 10])
        Scenario.st_issued = (s', Ok 5) ∧
    proofAt s' 5 = mkReputationProof (Enc 0) (Enc 60) true.
Proof.
  destruct (composite_proof_contents Scenario.st_issued Scenario.alice
              [Enc 50; Enc 70; Enc 10]) as (s' & H1 & H2 & _).
  - by vm_compute.
  - by vm_compute.
  - exists s'. split; [exact H1|exact H2].
Defined.

(** X13: checking a proof without revealing it.  For an initialized
    subject with total score T and a threshold t, [generateZKProof] answers
    whether t <= T; a proof generated for t is accepted by
    [verifyProofWithoutDecryption] exactly when t <= T and T > 0, so a
    subject whose total score is 0 fails the check even for the threshold
    0; and the proof of [generateTimeBoundProof] is rejected with "Invalid
    proof". *)
Theorem verify_generated_proof (s : State) (subj : address) (t : euint32)
    (validityPeriod : N) :
  isInitialized (profileAt s subj) = true →
  vcCount s < MAX_UINT256 →
  let T := reveal (encryptedTotalScore (profileAt s subj)) in
  run (generateZKProof subj t) s = (s, Ok (EncB (reveal t <=? T)%Z)) ∧
  (∃ s', run (generateReputationProof subj t) s = (s', Ok (vcCount s + 1)) ∧
         run (verifyProofWithoutDecryption (vcCount s + 1)) s'
         = (s', Ok (EncB ((reveal t <=? T)%Z && (0 <? T)%Z)))) ∧
  (∃ s', run (generateTimeBoundProof subj t validityPeriod) s
         = (s', Ok (vcCount s + 1)) ∧
         run (verifyProofWithoutDecryption (vcCount s + 1)) s'
         = (s', Revert InvalidProof)).
Proof.
  intros Hinit Hc T. apply N.ltb_lt in Hc. split; [|split].
  - unfold run, generateZKProof. unfold_M. by rewrite Hinit.
  - eexists. split.
    { unfold run. rewrite generateReputationProof_eq, Hinit, Hc. cbn zeta.
      reflexivity. }
    unfold run, verifyProofWithoutDecryption. unfold_M.
    unfold proofAt at 1 2. cbn.
    rewrite !default_lookup_insert, !decide_True by done. cbn.
    unfold FHE.gt, FHE.cmux, FHE.gte. cbn [revealb]. fold T.
    destruct (reveal t <=? T)%Z; cbn; [done|].
    by change (reveal (asEuint32 0)) with 0%Z.
  - eexists. split.
    { unfold run.
      rewrite generateTimeBoundProof_eq, generateReputationProof_eq.
      rewrite Hinit, Hc. cbn zeta. reflexivity. }
    unfold run, verifyProofWithoutDecryption. unfold_M.
    by rewrite proofAt_write_proof, decide_True.
Qed.

Lemma verify_generated_proof_witness :
  run (generateZKProof Scenario.alice (Enc 50)) Scenario.st_issued
  = (Scenario.st_issued, Ok (EncB true)).
Proof.
  destruct (verify_generated_proof Scenario.st_issued Scenario.alice
              (Enc 50) 0) as (H & _).
  - by vm_compute.
  - by vm_compute.
  - exact H.
Defined.

(** X14: recomputing one subject touches nothing else.  A successful
    [updateReputationProfile] leaves the counter, every credential, every
    credential list, every proof and revealed value, the router, the
    trusted issuers, the administrator and the profile of every other
    subject as they were. *)
Theorem recompute_touches_one_profile (s : State) (subj : address) :
  isInitialized (profileAt s subj) = true →
  ∃ s',
    run (updateReputationProfile subj) s = (s', Ok tt) ∧
    (∀ a, a ≠ subj → profileAt s' a = profileAt s a) ∧
    vcCount s' = vcCount s ∧
    verifiableCredentials s' = verifiableCredentials s ∧
    userCredentials s' = userCredentials s ∧
    reputationProofs s' = reputationProofs s ∧
    decryptedProofs s' = decryptedProofs s ∧
    requestToProofId s' = requestToProofId s ∧
    trustedIssuers s' = trustedIssuers s ∧
    systemAdmin s' = systemAdmin s.
Proof.
  intros Hinit. eexists.
  split; [by apply run_updateReputationProfile_ok|].
  split; [|by repeat split].
  intros a Ha. by rewrite profileAt_write_profile, decide_False.
Qed.

Lemma recompute_touches_one_profile_witness :
  ∃ s',
    run (updateReputationProfile Scenario.alice) Scenario.st_issued
      = (s', Ok tt) ∧
    profileAt s' Scenario.bob = profileAt Scenario.st_issued Scenario.bob.
Proof.
  destruct (recompute_touches_one_profile Scenario.st_issued Scenario.alice)
    as (s' & H1 & H2 & _).
  - by vm_compute.
  - exists s'. split; [exact H1|]. apply H2. by vm_compute.
Defined.

(** ** The list metrics *)

Lemma skipn_nth_cons {A : Type} (l : list A) (d : A) (a : nat) :
  (a < length l)%nat → skipn a l = nth a l d :: skipn (S a) l.
Proof.
  revert a. induction l as [|x l IH]; intros a Ha; cbn in Ha; [lia|].
  destruct a as [|a]; [reflexivity|]. cbn. apply IH. lia.
Qed.

(** A loop over the indices from [a] to the end of an array is a fold
    over the elements from position [a] on. *)
Lemma fold_seq_suffix {A B : Type} (f : B → A → B) (l : list A) (d : A)
    (k a : nat) (acc : B) :
  (a + k = length l)%nat →
  fold_left (λ acc j, f acc (nth j l d)) (seq a k) acc
  = fold_left f (skipn a l) acc.
Proof.
  revert a acc. induction k as [|k IH]; intros a acc Hlen.
  - rewrite skipn_all2 by lia. reflexivity.
  - rewrite (skipn_nth_cons l d a) by lia. cbn [seq fold_left].
    apply IH. lia.
Qed.

Lemma fold_count_different (s : State) (t : euint32) (ids : list N) (x : Z) :
  fold_left
    (λ acc id,
       FHE.add acc
         (FHE.cmux (FHE.neq t (encryptedType (vcAt s id)))
            (asEuint32 1) (asEuint32 0)))
    ids (Enc (x mod modulus32))
  = Enc ((x + Z.of_nat
               (length
                  (List.filter (λ y, negb (reveal t =? y)%Z)
                     (map (λ i, reveal (encryptedType (vcAt s i))) ids))))
         mod modulus32).
Proof.
  revert x. induction ids as [|i ids IH]; intros x.
  - cbn. by rewrite Z.add_0_r.
  - cbn [fold_left map List.filter]. rewrite add_mod_l.
    unfold FHE.cmux, FHE.neq in *. cbn [revealb] in *.
    destruct (reveal t =? reveal (encryptedType (vcAt s i)))%Z; cbn [negb].
    + change (reveal (asEuint32 0)) with 0%Z. rewrite Z.add_0_r. apply IH.
    + change (reveal (asEuint32 1)) with 1%Z. rewrite IH. cbn [length].
      do 2 f_equal. lia.
Qed.

Lemma diversity_outer_value (s : State) (ids : list N) (x : Z) (i : nat) :
  (i < length ids)%nat →
  diversity_outer s ids (Enc (x mod modulus32)) i
  = Enc ((x + Z.of_nat
               (length
                  (List.filter
                     (λ y, negb (reveal (encryptedType
                                           (vcAt s (nth i ids 0%N)))
                                 =? y)%Z)
                     (map (λ j, reveal (encryptedType (vcAt s j)))
                        (skipn (S i) ids)))))
         mod modulus32).
Proof.
  intros Hi. unfold diversity_outer, diversity_inner.
  rewrite (fold_seq_suffix
             (λ acc id,
                FHE.add acc
                  (FHE.cmux
                     (FHE.neq (encryptedType (vcAt s (nth i ids 0)))
                        (encryptedType (vcAt s id)))
                     (asEuint32 1) (asEuint32 0)))
             ids 0) by lia.
  replace (i + 1)%nat with (S i) by lia.
  apply fold_count_different.
Qed.

Lemma fold_diversity_outer (s : State) (ids : list N) (k a : nat) (x : Z) :
  (a + k = length ids)%nat →
  fold_left (diversity_outer s ids) (seq a k) (Enc (x mod modulus32))
  = Enc ((x + Z.of_nat
               (distinct_pairs
                  (map (λ j, reveal (encryptedType (vcAt s j)))
                     (skipn a ids))))
         mod modulus32).
Proof.
  revert a x. induction k as [|k IH]; intros a x Hlen.
  - rewrite skipn_all2 by lia. cbn. by rewrite Z.add_0_r.
  - cbn [seq fold_left]. rewrite diversity_outer_value by lia.
    rewrite IH by lia. rewrite (skipn_nth_cons ids 0 a) by lia.
    cbn [map distinct_pairs]. f_equal. f_equal. lia.
Qed.

Lemma calculateCredentialDiversity_eq (s : State) (subj : address) :
  calculateCredentialDiversity subj s
  = Ok (Enc (Z.of_nat (distinct_pairs (credential_types s subj))
             mod modulus32), s).
Proof.
  unfold calculateCredentialDiversity, credential_types. unfold_M.
  destruct (length (credentialsOf s subj) <? 2)%nat eqn:Hlen.
  - apply Nat.ltb_lt in Hlen.
    destruct (credentialsOf s subj) as [|i [|j l]]; cbn in Hlen;
      try lia; reflexivity.
  - cbn. do 2 f_equal.
    change (asEuint32 0) with (Enc (0 mod modulus32)).
    by rewrite (fold_diversity_outer s _ _ 0 0).
Qed.

(** X15: the diversity of a subject is the number, modulo 2^32, of pairs
    of positions i < j of its credential list whose credentials have
    different types; revoked credentials are counted like active ones, and
    the call never reverts.  With fewer than two credentials it is 0. *)
Theorem diversity_counts_distinct_pairs (s : State) (subj : address) :
  run (calculateCredentialDiversity subj) s
  = (s, Ok (Enc (Z.of_nat (distinct_pairs (credential_types s subj))
                 mod modulus32))) ∧
  ((length (credentialsOf s subj) < 2)%nat →
   run (calculateCredentialDiversity subj) s = (s, Ok (Enc 0))).
Proof.
  unfold run. rewrite calculateCredentialDiversity_eq.
  split; [done|].
  intros Hlen. unfold credential_types.
  destruct (credentialsOf s subj) as [|i [|j l]]; cbn in Hlen;
    try lia; reflexivity.
Qed.

Lemma diversity_counts_distinct_pairs_witness :
  run (calculateCredentialDiversity Scenario.bob) Scenario.st_issued
  = (Scenario.st_issued, Ok (Enc 0)).
Proof.
  apply (diversity_counts_distinct_pairs Scenario.st_issued Scenario.bob).
  vm_compute. lia.
Defined.

Lemma max_one_small (d : Z) :
  (0 <= d < modulus32)%Z →
  (Z.max d 1 mod modulus32 = Z.max d 1)%Z ∧ (1 <= Z.max d 1)%Z.
Proof.
  intros Hd. split; [|lia]. apply Z.mod_small. unfold modulus32 in *. lia.
Qed.

Lemma div_small (a b : Z) :
  (0 <= a < modulus32)%Z → (1 <= b)%Z →
  ((a / b) mod modulus32 = a / b)%Z.
Proof.
  intros Ha Hb. apply Z.mod_small. split; [apply Z.div_pos; lia|].
  apply Z.le_lt_trans with a; [|lia]. apply Z.div_le_upper_bound; nia.
Qed.

(** X16: the velocity of a subject with at least two credentials.  When
    the last credential of the list carries an earlier timestamp than the
    first, the call reverts with an arithmetic panic; otherwise it returns
    the wrapped difference (last score - first score) mod 2^32, divided by
    the elapsed time taken modulo 2^32 and floored at 1.  A score that
    went down therefore gives a large number, not a negative one. *)
Theorem velocity_value (s : State) (subj : address) :
  (2 ≤ length (credentialsOf s subj))%nat →
  let credentials := credentialsOf s subj in
  let firstVC := vcAt s (nth 0 credentials 0) in
  let lastVC := vcAt s (nth (length credentials - 1) credentials 0) in
  (timestamp lastVC < timestamp firstVC →
   run (calculateReputationVelocity subj) s = (s, Revert ArithmeticPanic)) ∧
  (timestamp firstVC ≤ timestamp lastVC →
   run (calculateReputationVelocity subj) s
   = (s, Ok (Enc (((reveal (encryptedScore lastVC)
                    - reveal (encryptedScore firstVC)) mod modulus32)
                  / Z.max (Z.of_N (timestamp lastVC - timestamp firstVC)
                           mod modulus32) 1)%Z))).
Proof.
  intros Hlen credentials firstVC lastVC.
  assert (Hlt : (length (credentialsOf s subj) <? 2)%nat = false).
  { apply Nat.ltb_ge. lia. }
  split.
  - intros Hts. unfold run, calculateReputationVelocity, checked_sub.
    unfold_M. rewrite Hlt. cbn.
    fold credentials. fold firstVC. fold lastVC.
    apply N.leb_gt in Hts. by rewrite Hts.
  - intros Hts. unfold run, calculateReputationVelocity, checked_sub.
    unfold_M. rewrite Hlt. cbn.
    fold credentials. fold firstVC. fold lastVC.
    apply N.leb_le in Hts. rewrite Hts. cbn. do 2 f_equal.
    unfold FHE.div, FHE.max, FHE.sub, asEuint32, uint32_of. cbn [reveal].
    change (1 mod modulus32)%Z with 1%Z.
    rewrite Z.mod_mod by done.
    set (d := (Z.of_N (timestamp lastVC - timestamp firstVC)
               mod modulus32)%Z).
    assert (Hd : (0 <= d < modulus32)%Z)
      by apply Z.mod_pos_bound, modulus32_pos.
    destruct (max_one_small d Hd) as [-> Hm].
    f_equal. apply div_small; [|done].
    apply Z.mod_pos_bound, modulus32_pos.
Qed.

Lemma velocity_value_witness :
  run (calculateReputationVelocity Scenario.alice) Scenario.st_issued
  = (Scenario.st_issued, Ok (Enc 2147483)).
Proof.
  destruct (velocity_value Scenario.st_issued Scenario.alice) as (_ & H).
  - vm_compute. lia.
  - rewrite H; [by vm_compute|]. by vm_compute.
Defined.

(** X22: with fewer than two credentials in a subject's list (none, or
    one, whatever its state) the velocity is 0 and the stability is 100,
    and neither call reverts. *)
Theorem metrics_of_few_credentials (s : State) (subj : address) :
  (length (credentialsOf s subj) < 2)%nat →
  run (calculateReputationVelocity subj) s = (s, Ok (Enc 0)) ∧
  run (calculateStability subj) s = (s, Ok (Enc 100)).
Proof.
  intros Hlen. apply Nat.ltb_lt in Hlen.
  unfold run, calculateStability, calculateReputationVelocity,
    calculateConsistency. unfold_M. rewrite !Hlen. cbn. rewrite ?Hlen.
  split; reflexivity.
Qed.

Lemma metrics_of_few_credentials_witness :
  run (calculateStability Scenario.bob) Scenario.st_issued
  = (Scenario.st_issued, Ok (Enc 100)).
Proof.
  apply (metrics_of_few_credentials Scenario.st_issued Scenario.bob).
  vm_compute. lia.
Defined.

Lemma fold_left_pointwise {A B : Type} (f g : B → A → B) (l : list A)
    (acc : B) :
  (∀ b a, f b a = g b a) → fold_left f l acc = fold_left g l acc.
Proof.
  intros H. revert acc. induction l as [|x l IH]; intros acc; [done|].
  cbn. rewrite H. apply IH.
Qed.

Lemma for_each_pointwise {A B : Type} (f g : B → A → M B) (l : list A)
    (acc : B) (st : State) :
  (∀ b a st', f b a st' = g b a st') →
  for_each f l acc st = for_each g l acc st.
Proof.
  intros H. revert acc st. induction l as [|x l IH]; intros acc st; [done|].
  cbn. unfold_M. rewrite H. destruct (g acc x st) as [[b st']|e]; [|done].
  apply IH.
Qed.

(** A revocation changes no type, no score and no timestamp. *)
Lemma revoked_fields s c i :
  encryptedType (vcAt (write_vc c (with_isActive false) s) i)
    = encryptedType (vcAt s i) ∧
  encryptedScore (vcAt (write_vc c (with_isActive false) s) i)
    = encryptedScore (vcAt s i) ∧
  timestamp (vcAt (write_vc c (with_isActive false) s) i)
    = timestamp (vcAt s i).
Proof. rewrite vcAt_write_vc. case_decide; [by subst|done]. Qed.

Lemma calculateConsistency_eq (a : address) (s : State) :
  calculateConsistency a s =
  Ok (if (length (credentialsOf s a) <? 2)%nat
      then asEuint32 100
      else FHE.sub (asEuint32 100)
             (FHE.div
                (FHE.div
                   (fold_left
                      (add_deviation s (encryptedTotalScore (profileAt s a)))
                      (credentialsOf s a) (asEuint32 0))
                   (asEuint32 (Z.of_nat (length (credentialsOf s a)))))
                (asEuint32 10)), s).
Proof.
  unfold calculateConsistency. unfold_M.
  by destruct (length (credentialsOf s a) <? 2)%nat.
Qed.

Lemma calculateReputationVelocity_eq (a : address) (s : State) :
  calculateReputationVelocity a s =
  let credentials := credentialsOf s a in
  let firstVC := vcAt s (nth 0 credentials 0) in
  let lastVC := vcAt s (nth (length credentials - 1) credentials 0) in
  if (length credentials <? 2)%nat then Ok (asEuint32 0, s)
  else if timestamp firstVC <=? timestamp lastVC
       then Ok (FHE.div
                  (FHE.sub (encryptedScore lastVC) (encryptedScore firstVC))
                  (FHE.max
                     (asEuint32
                        (uint32_of (timestamp lastVC - timestamp firstVC)))
                     (asEuint32 1)), s)
       else Revert ArithmeticPanic.
Proof.
  unfold calculateReputationVelocity, checked_sub. unfold_M. cbn zeta.
  destruct (length (credentialsOf s a) <? 2)%nat; [done|]. cbn.
  by destruct (timestamp (vcAt s (nth 0 (credentialsOf s a) 0))
               <=? timestamp
                     (vcAt s (nth (length (credentialsOf s a) - 1)
                                (credentialsOf s a) 0))).
Qed.

Lemma add_decay_eq (s0 : State) (now : Z) (decay : euint32) (i : N)
    (st : State) :
  add_decay s0 now decay i st =
  if (uint32_of (timestamp (vcAt s0 i)) <=? now)%Z
  then Ok (FHE.add decay
             (FHE.div
                (FHE.mul (encryptedScore (vcAt s0 i))
                   (asEuint32 (now - uint32_of (timestamp (vcAt s0 i)))))
                (asEuint32 31536000)), st)
  else Revert ArithmeticPanic.
Proof.
  unfold add_decay, checked_sub32. unfold_M.
  by destruct (uint32_of (timestamp (vcAt s0 i)) <=? now)%Z.
Qed.

Lemma for_each_cons {A B : Type} (body : B → A → M B) (x : A) (l : list A)
    (acc : B) (st : State) :
  for_each body (x :: l) acc st =
  match body acc x st with
  | Ok (acc', st') => for_each body l acc' st'
  | Revert e => Revert e
  end.
Proof. reflexivity. Qed.

(** The loop of [calculateReputationDecay] reads one storage and leaves
    the current one alone. *)
Lemma for_each_add_decay_view (s0 : State) (now : Z) (l : list N)
    (acc : euint32) (st : State) :
  for_each (add_decay s0 now) l acc st =
  match for_each (add_decay s0 now) l acc s0 with
  | Ok (v, _) => Ok (v, st)
  | Revert e => Revert e
  end.
Proof.
  revert acc. induction l as [|i l IH]; intros acc; [done|].
  rewrite !for_each_cons, !add_decay_eq.
  destruct (uint32_of (timestamp (vcAt s0 i)) <=? now)%Z; [|done].
  apply IH.
Qed.

(** X17: the list metrics never look at the active flag.  After a
    successful revocation of any credential, the diversity, the
    consistency, the velocity, the stability and the decay of every
    subject are what they were before it (the consistency until the
    profile is recomputed): a revoked credential keeps counting in
    them. *)
Theorem list_metrics_ignore_revocation (s s' : State) (env env' : Env)
    (c : N) (a : address) :
  run (revokeCredential env c) s = (s', Ok tt) →
  snd (run (calculateCredentialDiversity a) s')
    = snd (run (calculateCredentialDiversity a) s) ∧
  snd (run (calculateConsistency a) s')
    = snd (run (calculateConsistency a) s) ∧
  snd (run (calculateReputationVelocity a) s')
    = snd (run (calculateReputationVelocity a) s) ∧
  snd (run (calculateStability a) s')
    = snd (run (calculateStability a) s) ∧
  snd (run (calculateReputationDecay env' a) s')
    = snd (run (calculateReputationDecay env' a) s).
Proof.
  intros Hrun. apply run_ok_inv in Hrun. revert Hrun.
  rewrite revokeCredential_eq.
  destruct (issuer (vcAt s c) =? msg_sender env); [|discriminate].
  intros [= <-].
  set (s' := write_vc c (with_isActive false) s).
  assert (Hty : ∀ i, encryptedType (vcAt s' i) = encryptedType (vcAt s i))
    by (intros i; apply revoked_fields).
  assert (Hsc : ∀ i, encryptedScore (vcAt s' i) = encryptedScore (vcAt s i))
    by (intros i; apply revoked_fields).
  assert (Hts : ∀ i, timestamp (vcAt s' i) = timestamp (vcAt s i))
    by (intros i; apply revoked_fields).
  assert (Hdev : fold_left
                   (add_deviation s' (encryptedTotalScore (profileAt s a)))
                   (credentialsOf s a) (asEuint32 0)
                 = fold_left
                     (add_deviation s (encryptedTotalScore (profileAt s a)))
                     (credentialsOf s a) (asEuint32 0)).
  { apply fold_left_pointwise. intros b i. unfold add_deviation.
    by rewrite Hsc. }
  split; [|split; [|split; [|split]]].
  - unfold run. rewrite !calculateCredentialDiversity_eq. cbn.
    unfold credential_types.
    change (credentialsOf s' a) with (credentialsOf s a).
    do 5 f_equal. apply map_ext. intros i. by rewrite Hty.
  - unfold run. rewrite !calculateConsistency_eq. cbn [snd].
    change (credentialsOf s' a) with (credentialsOf s a).
    change (profileAt s' a) with (profileAt s a). by rewrite Hdev.
  - unfold run. rewrite !calculateReputationVelocity_eq. cbn zeta.
    change (credentialsOf s' a) with (credentialsOf s a).
    rewrite !Hsc, !Hts.
    destruct (length (credentialsOf s a) <? 2)%nat; [done|].
    by destruct (timestamp (vcAt s (nth 0 (credentialsOf s a) 0))
                 <=? timestamp
                       (vcAt s (nth (length (credentialsOf s a) - 1)
                                  (credentialsOf s a) 0))).
  - unfold run, calculateStability. unfold_M.
    rewrite !calculateConsistency_eq, !calculateReputationVelocity_eq.
    cbn zeta.
    change (credentialsOf s' a) with (credentialsOf s a).
    change (profileAt s' a) with (profileAt s a).
    rewrite !Hsc, !Hts, Hdev.
    destruct (length (credentialsOf s a) <? 2)%nat; [done|].
    by destruct (timestamp (vcAt s (nth 0 (credentialsOf s a) 0))
                 <=? timestamp
                       (vcAt s (nth (length (credentialsOf s a) - 1)
                                  (credentialsOf s a) 0))).
  - unfold run, calculateReputationDecay. unfold_M.
    change (credentialsOf s' a) with (credentialsOf s a).
    change (profileAt s' a) with (profileAt s a).
    destruct (isInitialized (profileAt s a)); [|done]. cbn.
    rewrite (for_each_pointwise
               (add_decay s' (uint32_of (block_timestamp env')))
               (add_decay s (uint32_of (block_timestamp env')))).
    2:{ intros b i st'. unfold add_decay. by rewrite Hsc, Hts. }
    rewrite (for_each_add_decay_view s _ _ _ s').
    change (credentialsOf s' a) with (credentialsOf s a).
    by destruct (for_each _ (credentialsOf s a) (asEuint32 0) s)
      as [[v st]|e].
Qed.

Lemma list_metrics_ignore_revocation_witness :
  snd (run (calculateCredentialDiversity Scenario.alice)
         (fst (run (revokeCredential (Scenario.at_time Scenario.issuerB 7000)
                      2) Scenario.st_issued)))
  = snd (run (calculateCredentialDiversity Scenario.alice) Scenario.st_issued).
Proof.
  assert (H : run (revokeCredential (Scenario.at_time Scenario.issuerB 7000)
                     2) Scenario.st_issued
              = (fst (run (revokeCredential
                             (Scenario.at_time Scenario.issuerB 7000) 2)
                        Scenario.st_issued), Ok tt)) by (by vm_compute).
  destruct (list_metrics_ignore_revocation _ _ _
              (Scenario.at_time Scenario.alice 8000) _ Scenario.alice H)
    as (H1 & _).
  exact H1.
Defined.

(** ** The profile metrics *)

(** X18: for a subject whose profile is not initialized, every function
    that starts from the profile reverts with "Profile not initialized"
    and leaves the storage as it is: the three proof generators and the
    eight metrics [generateZKProof], [calculateReputationDecay],
    [calculateSybilResistance], [calculatePortability],
    [calculateGovernanceWeight], [calculateSocialCapital],
    [calculateWeightedReputation] and [generateScorecard]. *)
Theorem uninitialized_subject_is_rejected (s : State) (env : Env)
    (subj : address) (t : euint32) (reqs : list euint32) (period : N) :
  isInitialized (profileAt s subj) = false →
  run (generateReputationProof subj t) s
    = (s, Revert ProfileNotInitialized) ∧
  run (generateTimeBoundProof subj t period) s
    = (s, Revert ProfileNotInitialized) ∧
  run (generateCompositeProof subj reqs) s
    = (s, Revert ProfileNotInitialized) ∧
  run (generateZKProof subj t) s = (s, Revert ProfileNotInitialized) ∧
  run (calculateReputationDecay env subj) s
    = (s, Revert ProfileNotInitialized) ∧
  run (calculateSybilResistance subj) s
    = (s, Revert ProfileNotInitialized) ∧
  run (calculatePortability subj) s = (s, Revert ProfileNotInitialized) ∧
  run (calculateGovernanceWeight subj) s
    = (s, Revert ProfileNotInitialized) ∧
  run (calculateSocialCapital subj) s = (s, Revert ProfileNotInitialized) ∧
  run (calculateWeightedReputation subj) s
    = (s, Revert ProfileNotInitialized) ∧
  run (generateScorecard subj) s = (s, Revert ProfileNotInitialized).
Proof.
  intros H. unfold run.
  rewrite generateTimeBoundProof_eq, generateReputationProof_eq,
    generateCompositeProof_eq.
  unfold generateZKProof, calculateReputationDecay, calculateSybilResistance,
    calculatePortability, calculateGovernanceWeight, calculateSocialCapital,
    calculateWeightedReputation, generateScorecard.
  unfold_M. rewrite !H. by repeat split.
Qed.

Lemma uninitialized_subject_is_rejected_witness :
  run (generateScorecard Scenario.admin) Scenario.st_issued
  = (Scenario.st_issued, Revert ProfileNotInitialized).
Proof.
  apply (uninitialized_subject_is_rejected Scenario.st_issued
           (Scenario.at_time Scenario.admin 9000) Scenario.admin (Enc 0) [] 0).
  by vm_compute.
Defined.

Lemma for_each_add_decay_ok (s0 : State) (now : Z) (l : list N) (x : Z)
    (st : State) :
  Forall (λ i, (uint32_of (timestamp (vcAt s0 i)) <= now)%Z) l →
  for_each (add_decay s0 now) l (Enc (x mod modulus32)) st =
  Ok (Enc ((x + sumZ (map (λ i,
                             reveal
                               (FHE.div
                                  (FHE.mul (encryptedScore (vcAt s0 i))
                                     (asEuint32
                                        (now - uint32_of
                                                 (timestamp (vcAt s0 i)))))
                                  (asEuint32 31536000))) l))
            mod modulus32), st).
Proof.
  intros H. revert x. induction H as [|i l Hi _ IH]; intros x.
  - cbn. by rewrite Z.add_0_r.
  - rewrite for_each_cons, add_decay_eq.
    apply Z.leb_le in Hi. rewrite Hi. rewrite add_mod_l, IH.
    cbn [map]. rewrite sumZ_cons. by rewrite Z.add_assoc.
Qed.

Lemma for_each_add_decay_panic (s0 : State) (now : Z) (l : list N)
    (acc : euint32) (st : State) :
  Exists (λ i, (now < uint32_of (timestamp (vcAt s0 i)))%Z) l →
  for_each (add_decay s0 now) l acc st = Revert ArithmeticPanic.
Proof.
  intros H. revert acc. induction H as [i l Hi|i l _ IH]; intros acc.
  - rewrite for_each_cons, add_decay_eq.
    apply Z.leb_gt in Hi. by rewrite Hi.
  - rewrite for_each_cons, add_decay_eq.
    destruct (uint32_of (timestamp (vcAt s0 i)) <=? now)%Z; [apply IH|done].
Qed.

(** X19: the decay of an initialized subject.  Ages are computed on
    timestamps truncated to 32 bits with a checked subtraction: when some
    credential of the list, active or not, has a truncated timestamp above
    the truncated block time the call reverts with an arithmetic panic;
    when none has, it returns the 32-bit sum over the whole list of
    score x age / 31536000, each product and quotient taken in the
    encrypted domain. *)
Theorem decay_value (s : State) (env : Env) (subj : address) :
  isInitialized (profileAt s subj) = true →
  let now := uint32_of (block_timestamp env) in
  (Exists (λ i, (now < uint32_of (timestamp (vcAt s i)))%Z)
     (credentialsOf s subj) →
   run (calculateReputationDecay env subj) s = (s, Revert ArithmeticPanic)) ∧
  (Forall (λ i, (uint32_of (timestamp (vcAt s i)) <= now)%Z)
     (credentialsOf s subj) →
   run (calculateReputationDecay env subj) s
   = (s, Ok (esum
               (map (λ i,
                       FHE.div
                         (FHE.mul (encryptedScore (vcAt s i))
                            (asEuint32
                               (now - uint32_of (timestamp (vcAt s i)))))
                         (asEuint32 31536000))
                  (credentialsOf s subj))))).
Proof.
  intros Hinit now. split; intros H.
  - unfold run, calculateReputationDecay. unfold_M. rewrite Hinit. cbn.
    fold now. by rewrite for_each_add_decay_panic.
  - unfold run, calculateReputationDecay. unfold_M. rewrite Hinit. cbn.
    fold now. change (asEuint32 0) with (Enc (0 mod modulus32)).
    rewrite for_each_add_decay_ok by done.
    rewrite esum_reveal, map_map. done.
Qed.

Lemma decay_value_witness :
  run (calculateReputationDecay (Scenario.at_time Scenario.alice 3000)
         Scenario.alice) Scenario.st_issued
  = (Scenario.st_issued, Revert ArithmeticPanic).
Proof.
  apply (decay_value Scenario.st_issued
           (Scenario.at_time Scenario.alice 3000) Scenario.alice).
  - by vm_compute.
  - replace (credentialsOf Scenario.st_issued Scenario.alice)
      with [1; 2; 4] by (by vm_compute).
    apply Exists_cons_tl, Exists_cons_tl, Exists_cons_hd.
    by vm_compute.
Defined.

(** ** Checks on single credentials *)

(** X20: [verifyCredential] answers whether the credential is active and
    its score is above 0.  It answers false for a credential that has just
    been revoked, whatever its score, and in a reachable state for every
    id that was never issued; it never reverts. *)
Theorem verifyCredential_value (s : State) (vcId : N) :
  run (verifyCredential vcId) s
  = (s, Ok (EncB (isActive (vcAt s vcId)
                  && (0 <? reveal (encryptedScore (vcAt s vcId)))%Z))) ∧
  (∀ env s', run (revokeCredential env vcId) s = (s', Ok tt) →
             run (verifyCredential vcId) s' = (s', Ok (EncB false))) ∧
  (reachable s → never_issued s vcId →
   run (verifyCredential vcId) s = (s, Ok (EncB false))).
Proof.
  assert (H : ∀ st, run (verifyCredential vcId) st
              = (st, Ok (EncB (isActive (vcAt st vcId)
                               && (0 <? reveal (encryptedScore
                                                  (vcAt st vcId)))%Z)))).
  { intros st. reflexivity. }
  split; [apply H|]. split.
  - intros env s' Hrun. apply run_ok_inv in Hrun. revert Hrun.
    rewrite revokeCredential_eq.
    destruct (issuer (vcAt s vcId) =? msg_sender env); [|discriminate].
    intros [= <-]. rewrite H. by rewrite vcAt_write_vc, decide_True.
  - intros Hr Hnever. rewrite H.
    by rewrite (never_issued_zero s vcId (reachable_Inv s Hr) Hnever).
Qed.

Lemma verifyCredential_value_witness :
  run (verifyCredential 9) Scenario.st_issued
  = (Scenario.st_issued, Ok (EncB false)).
Proof.
  destruct (verifyCredential_value Scenario.st_issued 9) as (_ & _ & H).
  apply H.
  - apply reachable_run_trace. constructor.
  - apply beyond_counter_never_issued;
      [apply reachable_run_trace; constructor|left; by vm_compute].
Defined.

Lemma verifyCredentialOwnership_eq (b : address) (vcId : N) (s : State) :
  verifyCredentialOwnership b vcId s
  = Ok (EncB (subject (vcAt s vcId) =? b), s).
Proof.
  unfold verifyCredentialOwnership. unfold_M. by destruct (vcAt s vcId).
Qed.

(** X21: in a reachable state [verifyCredentialOwnership] answers true for
    an id recorded in a subject's list exactly when asked about that
    subject; for an id that was never issued it answers true exactly when
    asked about the zero address. *)
Theorem ownership_of_recorded_ids (s : State) (vcId : N) (b : address) :
  reachable s →
  (∀ a, vcId ∈ credentialsOf s a →
        run (verifyCredentialOwnership b vcId) s = (s, Ok (EncB (a =? b)))) ∧
  (never_issued s vcId →
   run (verifyCredentialOwnership b vcId) s = (s, Ok (EncB (0 =? b)))).
Proof.
  intros Hr. unfold run. rewrite verifyCredentialOwnership_eq. split.
  - intros a Hin. destruct (reachable_Ids s Hr) as [_ _ Hrec _ _ _].
    destruct (Hrec a vcId Hin) as (_ & _ & -> & _). done.
  - intros Hnever.
    by rewrite (never_issued_zero s vcId (reachable_Inv s Hr) Hnever).
Qed.

Lemma ownership_of_recorded_ids_witness :
  run (verifyCredentialOwnership Scenario.bob 4) Scenario.st_issued
  = (Scenario.st_issued, Ok (EncB false)).
Proof.
  destruct (ownership_of_recorded_ids Scenario.st_issued 4 Scenario.bob)
    as (H & _).
  - apply reachable_run_trace. constructor.
  - apply (H Scenario.alice). vm_compute. apply list_elem_of_In. cbn. tauto.
Defined.

(** ** Keys that were never written *)

Lemma exec_profiles env c s u s' a :
  exec env c s = Ok (u, s') →
  profileAt s' a = profileAt s a ∨ isInitialized (profileAt s' a) = true.
Proof.
  assert (Hissue : ∀ subj ty sc w,
            issueEncryptedVC env subj ty sc w s = Ok (u, s') →
            profileAt s' a = profileAt s a
            ∨ isInitialized (profileAt s' a) = true).
  { intros subj ty sc w (_ & _ & _ & _ & Hp & _)%issueEncryptedVC_reads.
    rewrite Hp. case_decide; [subst a|by left].
    destruct (isInitialized (profileAt s subj)); [by left|by right]. }
  destruct c; cbn [exec].
  - rewrite authorizeIssuer_eq.
    destruct (msg_sender env =? systemAdmin s); [|discriminate].
    intros [= <- <-]. by left.
  - apply Hissue.
  - rewrite updateReputationProfile_eq.
    destruct (isInitialized (profileAt s subject0)); [|discriminate].
    intros [= <- <-]. rewrite profileAt_write_profile.
    case_decide; [by right|by left].
  - unfold discard. unfold_M. rewrite generateReputationProof_eq.
    destruct (isInitialized (profileAt s subject0)); [|discriminate].
    destruct (vcCount s <? MAX_UINT256); [|discriminate].
    intros [= <- <-]. by left.
  - rewrite requestProofDecryption_eq.
    destruct (isValid (proofAt s proofId)); [|discriminate].
    destruct (isRevealed (decryptedAt s proofId)); [discriminate|].
    intros [= <- <-]. by left.
  - intros (v1 & v2 & _ & _ & _ & ->)%decryptReputationProof_ok. by left.
  - intros H%onlyIssuer_then. by eapply Hissue.
  - rewrite revokeCredential_eq.
    destruct (issuer (vcAt s vcId) =? msg_sender env); [|discriminate].
    intros [= <- <-]. by left.
  - intros H%onlyIssuer_then. by eapply Hissue.
  - unfold discard. unfold_M.
    rewrite generateTimeBoundProof_eq, generateReputationProof_eq.
    destruct (isInitialized (profileAt s subject0)); [|discriminate].
    destruct (vcCount s <? MAX_UINT256); [|discriminate].
    intros [= <- <-]. by left.
  - apply Hissue.
  - unfold discard. unfold_M. rewrite generateCompositeProof_eq.
    destruct (isInitialized (profileAt s subject0)); [|discriminate].
    destruct (vcCount s <? MAX_UINT256); [|discriminate].
    intros [= <- <-]. by left.
  - unfold protectUserPrivacy, onlyAdmin. unfold_M.
    destruct (msg_sender env =? systemAdmin s); [|discriminate].
    intros [= <- <-]. by left.
  - intros H%onlyIssuer_then. by eapply Hissue.
  - intros H%onlyIssuer_then. by eapply Hissue.
Qed.

Lemma reachable_uninitialized_zero s a :
  reachable s → isInitialized (profileAt s a) = false →
  profileAt s a = zeroProfile.
Proof.
  induction 1 as [env|s tx _ IH].
  - intros _. unfold profileAt. cbn. by rewrite lookup_empty.
  - unfold step, run.
    destruct (exec (fst tx) (snd tx) s) as [[u s']|e] eqn:E; cbn [fst];
      [|exact IH].
    destruct (exec_profiles _ _ _ _ _ a E) as [Heq|Hinit].
    + rewrite Heq. exact IH.
    + rewrite Hinit. discriminate.
Qed.

(** X23: reading keys that were never written.  In a reachable state the
    three read accessors never revert; for an id above the counter, and
    for the id 0, [getReputationProof] returns zero ciphertexts and
    valid=false, [getDecryptedProof] returns 0, 0 and revealed=false, and
    a reveal request is rejected with "Invalid proof"; for a subject
    without credentials [getReputationProfile] returns zero ciphertexts
    and initialized=false. *)
Theorem accessors_of_unwritten_keys (s : State) (i : N) (a : address) :
  reachable s →
  (vcCount s < i ∨ i = 0 →
   run (getReputationProof i) s = (s, Ok (Enc 0, Enc 0, false)) ∧
   run (getDecryptedProof i) s = (s, Ok (0%Z, 0%Z, false)) ∧
   ∀ env, run (requestProofDecryption env i) s = (s, Revert InvalidProof)) ∧
  (credentialsOf s a = [] →
   run (getReputationProfile a) s = (s, Ok (Enc 0, Enc 0, Enc 0, false))).
Proof.
  intros Hr. destruct (reachable_Ids s Hr) as [Hz Hf _ _ _ _].
  pose proof (reachable_Inv s Hr) as [Ha _ _ _].
  split.
  - intros Hi.
    assert (proofAt s i = zeroProof ∧ decryptedAt s i = zeroDecrypted)
      as [Hp Hd].
    { destruct Hi as [Hi| ->]; [by apply Hf|by destruct Hz as (_ & ? & ?)]. }
    unfold run, getReputationProof, getDecryptedProof. unfold_M.
    rewrite Hp, Hd. split; [done|]. split; [done|].
    intros env. by rewrite requestProofDecryption_eq, Hp.
  - intros Hl.
    assert (Hinit : isInitialized (profileAt s a) = false).
    { destruct (isInitialized (profileAt s a)) eqn:E; [|done].
      by apply Ha in E. }
    unfold run, getReputationProfile. unfold_M.
    by rewrite (reachable_uninitialized_zero s a Hr Hinit).
Qed.

Lemma accessors_of_unwritten_keys_witness :
  run (getReputationProof 6) Scenario.st_requested
    = (Scenario.st_requested, Ok (Enc 0, Enc 0, false)) ∧
  run (getReputationProfile Scenario.admin) Scenario.st_requested
    = (Scenario.st_requested, Ok (Enc 0, Enc 0, Enc 0, false)).
Proof.
  destruct (accessors_of_unwritten_keys Scenario.st_requested 6
              Scenario.admin) as (H1 & H2).
  - apply reachable_run_trace. constructor.
  - split.
    + apply H1. left. by vm_compute.
    + apply H2. by vm_compute.
Defined.

(** X25: the counter at its bound.  When the counter holds 2^256-1 the
    increment overflows: issuing, for a trusted caller, and each of the
    three proof generators, for an initialized subject, revert with an
    arithmetic panic and leave the storage as it is. *)
Theorem counter_exhausted (s : State) (env : Env) (subj : address)
    (ty sc w : euint32) (reqs : list euint32) (period : N) :
  vcCount s = MAX_UINT256 →
  (isTrustedIssuer s (msg_sender env) = true →
   run (issueEncryptedVC env subj ty sc w) s = (s, Revert ArithmeticPanic)) ∧
  (isInitialized (profileAt s subj) = true →
   run (generateReputationProof subj sc) s = (s, Revert ArithmeticPanic) ∧
   run (generateTimeBoundProof subj sc period) s
     = (s, Revert ArithmeticPanic) ∧
   run (generateCompositeProof subj reqs) s = (s, Revert ArithmeticPanic)).
Proof.
  intros Hc.
  assert (Hlt : (vcCount s <? MAX_UINT256) = false).
  { rewrite Hc. apply N.ltb_irrefl. }
  split.
  - intros Ht. unfold run. by rewrite issueEncryptedVC_eq, Ht, Hlt.
  - intros Hinit. unfold run.
    rewrite generateTimeBoundProof_eq, generateReputationProof_eq,
      generateCompositeProof_eq.
    by rewrite Hinit, Hlt.
Qed.

Lemma counter_exhausted_witness :
  run (generateReputationProof Scenario.alice (Enc 1))
      (set_vcCount MAX_UINT256 Scenario.st_issued)
  = (set_vcCount MAX_UINT256 Scenario.st_issued, Revert ArithmeticPanic).
Proof.
  destruct (counter_exhausted (set_vcCount MAX_UINT256 Scenario.st_issued)
              (Scenario.at_time Scenario.alice 9000) Scenario.alice
              (Enc 0) (Enc 1) (Enc 0) [] 0) as (_ & H).
  - reflexivity.
  - destruct H as (H & _); [by vm_compute|exact H].
Defined.

(** ** The scorecard *)





(** ** Staleness, order, and the administrator *)

Lemma exec_keeps_initialized_profile env c s u s' subj :
  exec env c s = Ok (u, s') →
  isInitialized (profileAt s subj) = true →
  c ≠ UpdateReputationProfile subj →
  profileAt s' subj = profileAt s subj.
Proof.
  intros Hexec Hinit Hc.
  assert (Hissue : ∀ a ty sc w,
            issueEncryptedVC env a ty sc w s = Ok (u, s') →
            profileAt s' subj = profileAt s subj).
  { intros a ty sc w (_ & _ & _ & _ & Hp & _)%issueEncryptedVC_reads.
    rewrite Hp. case_decide; [subst a|done]. by rewrite Hinit. }
  revert Hexec. destruct c; cbn [exec].
  - rewrite authorizeIssuer_eq.
    destruct (msg_sender env =? systemAdmin s); [|discriminate].
    by intros [= <- <-].
  - apply Hissue.
  - rewrite updateReputationProfile_eq.
    destruct (isInitialized (profileAt s subject0)); [|discriminate].
    intros [= <- <-]. rewrite profileAt_write_profile.
    case_decide; [congruence|done].
  - unfold discard. unfold_M. rewrite generateReputationProof_eq.
    destruct (isInitialized (profileAt s subject0)); [|discriminate].
    destruct (vcCount s <? MAX_UINT256); [|discriminate].
    by intros [= <- <-].
  - rewrite requestProofDecryption_eq.
    destruct (isValid (proofAt s proofId)); [|discriminate].
    destruct (isRevealed (decryptedAt s proofId)); [discriminate|].
    by intros [= <- <-].
  - by intros (v1 & v2 & _ & _ & _ & ->)%decryptReputationProof_ok.
  - intros H%onlyIssuer_then. by eapply Hissue.
  - rewrite revokeCredential_eq.
    destruct (issuer (vcAt s vcId) =? msg_sender env); [|discriminate].
    by intros [= <- <-].
  - intros H%onlyIssuer_then. by eapply Hissue.
  - unfold discard. unfold_M.
    rewrite generateTimeBoundProof_eq, generateReputationProof_eq.
    destruct (isInitialized (profileAt s subject0)); [|discriminate].
    destruct (vcCount s <? MAX_UINT256); [|discriminate].
    by intros [= <- <-].
  - apply Hissue.
  - unfold discard. unfold_M. rewrite generateCompositeProof_eq.
    destruct (isInitialized (profileAt s subject0)); [|discriminate].
    destruct (vcCount s <? MAX_UINT256); [|discriminate].
    by intros [= <- <-].
  - unfold protectUserPrivacy, onlyAdmin. unfold_M.
    destruct (msg_sender env =? systemAdmin s); [|discriminate].
    by intros [= <- <-].
  - intros H%onlyIssuer_then. by eapply Hissue.
  - intros H%onlyIssuer_then. by eapply Hissue.
Qed.

(** X26: a profile is stale until it is recomputed.  Once a subject's
    profile is initialized, the only call that changes it is
    [updateReputationProfile] for that subject: after any sequence of other
    calls (issuing to the subject, revoking its credentials, generating
    proofs, recomputing other subjects) the stored total score, trust
    level and count are what they were, so a proof generated then still
    rests on the old total. *)
Theorem profile_is_stale_until_recomputed (s : State)
    (txs : list (Env * Call)) (subj : address) (t : euint32) :
  isInitialized (profileAt s subj) = true →
  Forall (λ tx : Env * Call, snd tx ≠ UpdateReputationProfile subj) txs →
  profileAt (run_trace txs s) subj = profileAt s subj ∧
  snd (run (generateZKProof subj t) (run_trace txs s))
    = snd (run (generateZKProof subj t) s).
Proof.
  intros Hinit Htxs.
  assert (Hp : profileAt (run_trace txs s) subj = profileAt s subj).
  { revert s Hinit. induction Htxs as [|tx txs Htx _ IH]; intros s Hinit;
      [done|].
    rewrite run_trace_cons.
    assert (Hstep : profileAt (step s tx) subj = profileAt s subj).
    { unfold step, run.
      destruct (exec (fst tx) (snd tx) s) as [[u s']|e] eqn:E; cbn [fst];
        [|done].
      by eapply exec_keeps_initialized_profile. }
    rewrite IH by (by rewrite Hstep). exact Hstep. }
  split; [exact Hp|].
  unfold run, generateZKProof. unfold_M. rewrite Hp, Hinit. done.
Qed.

Lemma profile_is_stale_until_recomputed_witness :
  profileAt
    (run_trace
       [(Scenario.at_time Scenario.issuerA 7000, RevokeCredential 1);
        (Scenario.at_time Scenario.issuerA 7001,
         IssueEncryptedVC Scenario.alice (Enc 1) (Enc 5) (Enc 9));
        (Scenario.at_time Scenario.bob 7002,
         UpdateReputationProfile Scenario.bob)]
       Scenario.st_issued) Scenario.alice
  = profileAt Scenario.st_issued Scenario.alice.
Proof.
  apply (profile_is_stale_until_recomputed Scenario.st_issued _
           Scenario.alice (Enc 0)).
  - by vm_compute.
  - repeat constructor; discriminate.
Defined.

Lemma strictly_increasing_snoc (l : list N) (x : N) :
  StronglySorted N.lt l → (∀ y, y ∈ l → y < x) →
  StronglySorted N.lt (l ++ [x]).
Proof.
  induction 1 as [|y l Hs IH Hy]; intros Hx; cbn.
  - repeat constructor.
  - constructor.
    + apply IH. intros z Hz. apply Hx. by right.
    + apply Forall_app. split; [exact Hy|].
      constructor; [|constructor]. apply Hx. by left.
Qed.

(** X27: ids record the order of issuance.  In a reachable state every
    credential list is strictly increasing: a credential issued later to
    a subject stands later in its list and carries a larger id, so the
    first and the last entry, which [calculateReputationVelocity] reads,
    are the first and the latest credential issued to the subject. *)
Theorem credential_lists_are_increasing (s : State) (a : address) :
  reachable s → StronglySorted N.lt (credentialsOf s a).
Proof.
  intros Hr. revert a. induction Hr as [env|s tx Hr IH]; intros a.
  - unfold credentialsOf. cbn. rewrite lookup_empty. constructor.
  - destruct (reachable_Ids s Hr) as [_ _ Hrec _ _ _].
    destruct (effect_of_step s tx) as
      [Hc Hvc Hl Hpf Hd Hrt
      |vc Hid Hact Hc Hvc Hl Hpf Hd Hrt
      |rp Hc Hpf Hd Hvc Hl Hrt
      |r0 pid Hvalid Hunrev Hrt Hc Hvc Hl Hpf Hd
      |pid v1 v2 Hnz Hvalid Hunrev Hd Hc Hvc Hl Hpf Hrt
      |i0 Hvc Hc Hl Hpf Hd Hrt];
      unfold same_lists in *; rewrite Hl; try apply IH.
    case_decide; [|apply IH].
    apply strictly_increasing_snoc; [apply IH|].
    intros y Hy. destruct (Hrec a y Hy) as (Hb & _). lia.
Qed.

Lemma credential_lists_are_increasing_witness :
  StronglySorted N.lt (credentialsOf Scenario.st_issued Scenario.alice).
Proof.
  apply (credential_lists_are_increasing Scenario.st_issued Scenario.alice).
  apply reachable_run_trace. constructor.
Defined.

(** X28: the two administrator functions.  For a caller other than the
    administrator, [authorizeIssuer] and [protectUserPrivacy] revert with
    "Not admin" and change nothing; for the administrator,
    [authorizeIssuer] changes only the trust of the address it names, and
    [protectUserPrivacy] succeeds and changes nothing at all: the
    subject's credentials, list and profile are as before. *)
Theorem administrator_calls (s : State) (env : Env) (a : address) :
  (msg_sender env ≠ systemAdmin s →
   run (authorizeIssuer env a) s = (s, Revert NotAdmin) ∧
   run (protectUserPrivacy env a) s = (s, Revert NotAdmin)) ∧
  (msg_sender env = systemAdmin s →
   run (protectUserPrivacy env a) s = (s, Ok tt) ∧
   ∃ s', run (authorizeIssuer env a) s = (s', Ok tt) ∧
         isTrustedIssuer s' a = true ∧
         (∀ b, b ≠ a → isTrustedIssuer s' b = isTrustedIssuer s b) ∧
         s' = set_trustedIssuers (trustedIssuers s') s).
Proof.
  unfold run. rewrite authorizeIssuer_eq.
  unfold protectUserPrivacy, onlyAdmin. unfold_M.
  split.
  - intros Hne. apply N.eqb_neq in Hne. by rewrite Hne.
  - intros Heq. apply N.eqb_eq in Heq. rewrite Heq. split; [done|].
    eexists. split; [reflexivity|].
    unfold isTrustedIssuer. cbn.
    split; [by rewrite default_lookup_insert, decide_True|].
    split; [|done].
    intros b Hb. by rewrite default_lookup_insert, decide_False.
Qed.

Lemma administrator_calls_witness :
  run (protectUserPrivacy (Scenario.at_time Scenario.bob 9000)
         Scenario.alice) Scenario.st_issued
    = (Scenario.st_issued, Revert NotAdmin) ∧
  run (protectUserPrivacy (Scenario.at_time Scenario.admin 9000)
         Scenario.alice) Scenario.st_issued
    = (Scenario.st_issued, Ok tt).
Proof.
  destruct (administrator_calls Scenario.st_issued
              (Scenario.at_time Scenario.bob 9000) Scenario.alice)
    as (H1 & _).
  destruct (administrator_calls Scenario.st_issued
              (Scenario.at_time Scenario.admin 9000) Scenario.alice)
    as (_ & H2).
  split.
  - apply H1. vm_compute. discriminate.
  - apply H2. by vm_compute.
Defined.
